(** * albumentations/core/utils.py: label merge/split and format routing

    A shallow embedding of [albumentations.core.utils]: the
    [ensure_internal_format] wrapper, [get_shape], [Params] and the
    orchestration methods of [DataProcessor].  The caller's data mapping is a
    Python dict mutated in place; it is threaded as the state of a small
    state-and-exception monad, so that the mapping left behind by a call
    that raises can be observed as well. *)

From Stdlib Require Import ZArith Lia String Ascii.
From stdpp Require Import base gmap list strings fin_maps.

Local Open Scope string_scope.

(** ** Python values, exceptions and the interpreter's built-in operations *)

Module Py.

(** The values a data mapping holds.  Sequences are Python lists.  Arrays and
    tensors are known by their shape only (pixel contents are not tracked);
    any other object is known by the name of its type. *)
#[warnings="-register-all"]
Inductive value : Type :=
| VNone
| VInt (z : Z)
| VStr (s : string)
| VList (xs : list value)
| VArray (shape : list nat)
| VTensor (shape : list nat)
| VObj (ty : string).

Inductive exn_class : Type :=
| ValueError | KeyError | TypeError | IndexError
| AttributeError | RuntimeError | OtherError (name : string).

(** A raised exception: its class and [str(e)].  The messages of the
    exceptions the interpreter raises by itself are left empty, except for
    [KeyError], which carries the key. *)
Inductive exn : Type := Raise (c : exn_class) (msg : string).

Definition exn_kind (e : exn) : exn_class := let 'Raise c _ := e in c.
Definition exn_msg (e : exn) : string := let 'Raise _ m := e in m.

Inductive result (A : Type) : Type :=
| Ok (a : A)
| Err (e : exn).
Arguments Ok {A} a.
Arguments Err {A} e.

Definition rbind {A B} (r : result A) (k : A → result B) : result B :=
  match r with
  | Ok a => k a
  | Err e => Err e
  end.

Fixpoint rmap {A B} (f : A → result B) (xs : list A) : result (list B) :=
  match xs with
  | [] => Ok []
  | x :: xs' =>
      rbind (f x) (λ y, rbind (rmap f xs') (λ ys, Ok (y :: ys)))
  end.

(** [type(v).__name__], qualified as [type(v)] prints it. *)
Definition type_name (v : value) : string :=
  match v with
  | VNone => "NoneType"
  | VInt _ => "int"
  | VStr _ => "str"
  | VList _ => "list"
  | VArray _ => "numpy.ndarray"
  | VTensor _ => "torch.Tensor"
  | VObj ty => ty
  end.

(** [str(type(v))] *)
Definition type_repr (v : value) : string :=
  "<class '" ++ type_name v ++ "'>".

Definition chars (s : string) : list value :=
  (λ c, VStr (String c EmptyString)) <$> list_ascii_of_string s.

(** [len(v)] *)
Definition py_len (v : value) : result nat :=
  match v with
  | VList xs => Ok (length xs)
  | VStr s => Ok (String.length s)
  | VArray (d :: _) | VTensor (d :: _) => Ok d
  | _ => Err (Raise TypeError "")
  end.

(** The items [iter(v)] yields, as [list(v)] collects them. *)
Definition py_iter (v : value) : result (list value) :=
  match v with
  | VList xs => Ok xs
  | VStr s => Ok (chars s)
  | VArray (d :: rest) => Ok (replicate d (VArray rest))
  | VTensor (d :: rest) => Ok (replicate d (VTensor rest))
  | _ => Err (Raise TypeError "")
  end.

(** Position of the integer index [i] in a sequence of length [n]:
    negative indices count from the end. *)
Definition norm_index (n : nat) (i : Z) : option nat :=
  if (0 <=? i)%Z then
    (if (i <? Z.of_nat n)%Z then Some (Z.to_nat i) else None)
  else
    (if (- Z.of_nat n <=? i)%Z then Some (Z.to_nat (Z.of_nat n + i)) else None).

(** [v[i]] for an integer [i] *)
Definition py_getitem (v : value) (i : Z) : result value :=
  match v with
  | VList _ | VStr _ | VArray (_ :: _) | VTensor (_ :: _) =>
      rbind (py_iter v) (λ xs,
        match norm_index (length xs) i with
        | Some k =>
            match xs !! k with
            | Some x => Ok x
            | None => Err (Raise IndexError "")
            end
        | None => Err (Raise IndexError "")
        end)
  | VArray [] | VTensor [] => Err (Raise IndexError "")
  | _ => Err (Raise TypeError "")
  end.

(** Number of items [v[:stop]] keeps out of [n]. *)
Definition slice_stop (n : nat) (stop : Z) : nat :=
  if (0 <=? stop)%Z then Nat.min (Z.to_nat stop) n
  else Z.to_nat (Z.of_nat n + stop).

(** [v[:stop]] *)
Definition py_slice_to (v : value) (stop : Z) : result value :=
  match v with
  | VList xs => Ok (VList (take (slice_stop (length xs) stop) xs))
  | VStr s =>
      Ok (VStr (String.substring 0 (slice_stop (String.length s) stop) s))
  | VArray (d :: rest) => Ok (VArray (slice_stop d stop :: rest))
  | VTensor (d :: rest) => Ok (VTensor (slice_stop d stop :: rest))
  | VArray [] | VTensor [] => Err (Raise IndexError "")
  | _ => Err (Raise TypeError "")
  end.

(** [v.shape] *)
Definition py_shape (v : value) : result (list nat) :=
  match v with
  | VArray s | VTensor s => Ok s
  | _ => Err (Raise AttributeError "")
  end.

(** [a, b = t] for a tuple (or [torch.Size]) [t] of numbers *)
Definition unpack2 (t : list nat) : result (nat * nat) :=
  match t with
  | [a; b] => Ok (a, b)
  | _ => Err (Raise ValueError "")
  end.

(** [t[-2:]] *)
Definition last2 {A} (t : list A) : list A := drop (length t - 2) t.

(** *** Computations on the caller's mapping

    A computation receives the mapping, and gives back the mapping as it
    left it together with a value or the exception it raised. *)

Abbreviation dict := (gmap string value).

Definition M (A : Type) : Type := dict → dict * result A.

Definition ret {A} (a : A) : M A := λ σ, (σ, Ok a).
Definition raise {A} (e : exn) : M A := λ σ, (σ, Err e).
Definition bind {A B} (m : M A) (k : A → M B) : M B :=
  λ σ, match m σ with
       | (σ', Ok a) => k a σ'
       | (σ', Err e) => (σ', Err e)
       end.
Definition lift {A} (r : result A) : M A := λ σ, (σ, r).

(** [data[k]] *)
Definition getitem (k : string) : M value :=
  λ σ, match σ !! k with
       | Some v => (σ, Ok v)
       | None => (σ, Err (Raise KeyError ("'" ++ k ++ "'")))
       end.

(** [data[k] = v] *)
Definition setitem (k : string) (v : value) : M unit :=
  λ σ, (<[k:=v]> σ, Ok tt).

(** [for x in xs: body(x)] *)
Fixpoint for_each {A} (xs : list A) (body : A → M unit) : M unit :=
  match xs with
  | [] => ret tt
  | x :: xs' => bind (body x) (λ _, for_each xs' body)
  end.

(** [for i, x in enumerate(xs, start): body(i, x)] *)
Fixpoint for_enumerate {A} (start : nat) (xs : list A)
    (body : nat → A → M unit) : M unit :=
  match xs with
  | [] => ret tt
  | x :: xs' => bind (body start x) (λ _, for_enumerate (S start) xs' body)
  end.

End Py.

Import Py.

Notation "'let*' x ':=' m 'in' k" := (bind m (λ x, k))
  (at level 10, x pattern, m at level 100, k at level 200, only parsing).
Notation "'let+' x ':=' r 'in' k" := (rbind r (λ x, k))
  (at level 10, x pattern, r at level 100, k at level 200, only parsing).

(** ** [ensure_internal_format] *)

Section EnsureInternalFormat.

(** [BatchInternalType] is declared in [albumentations.core.types]; the
    wrapper uses only its [check_consistency] method, which returns
    nothing and raises on an inconsistent batch. *)
Context {BatchInternalType : Type}.
Variable check_consistency : BatchInternalType → result unit.

(** What a wrapped function may return: an instance of
    [BatchInternalType], or some other value. *)
Inductive returned : Type :=
| Batch (b : BatchInternalType)
| NotBatch (v : value).

(** A callable taking the arguments [(data, *args, **kwargs)], bundled
    as [Args], with its [__name__]. *)
Record callable (Args : Type) : Type := Callable {
  func_name : string;
  call : Args → result returned
}.
Arguments func_name {Args} _.
Arguments call {Args} _ _.

Definition ensure_internal_format {Args} (func : callable Args)
    : Args → result returned :=
  λ args,
    let+ data := call func args in
    match data with
    | Batch b =>
        let+ _ := check_consistency b in
        Ok data
    | NotBatch v =>
        Err (Raise TypeError
               ("The return from " ++ func_name func
                ++ " should be a `BatchInternalType`, instead it returns a "
                ++ type_repr v ++ "."))
    end.

End EnsureInternalFormat.

Arguments returned : clear implicits.
Arguments callable : clear implicits.
Arguments Callable {BatchInternalType Args} _ _.
Arguments func_name {BatchInternalType Args} _.
Arguments call {BatchInternalType Args} _ _.

(** ** [get_shape] *)

Definition isinstance_ndarray (img : value) : bool :=
  match img with VArray _ => true | _ => false end.

(** [torch.is_tensor(img)] *)
Definition is_tensor (img : value) : bool :=
  match img with VTensor _ => true | _ => false end.

Definition unsupported_image_msg (img : value) : string :=
  "Albumentations supports only numpy.ndarray and torch.Tensor data type for image. Got: "
  ++ type_repr img.

(** [torch_importable] tells whether [import torch] succeeds; when it does
    not, the [ImportError] is swallowed and the function falls through to
    the final [raise]. *)
Definition get_shape (torch_importable : bool) (img : value)
    : result (list nat) :=
  if isinstance_ndarray img then
    let+ shape := py_shape img in
    let+ (rows, cols) := unpack2 (take 2 shape) in
    Ok [rows; cols]
  else if torch_importable && is_tensor img then
    let+ shape := py_shape img in
    Ok (last2 shape)
  else
    Err (Raise RuntimeError (unsupported_image_msg img)).

(** ** [Params] *)

Record Params : Type := {
  format : string;
  label_fields : option (list string)
}.

(** ** [DataProcessor] *)

(** The abstract methods a concrete processor supplies.  They compute on
    the values handed to them and may raise. *)
Class DataProcessorOps : Type := {
  default_data_name : string;
  convert_to_internal_type : value → result value;
  convert_to_original_type : value → result value;
  filter : value → nat → nat → string → result value;
  check : value → nat → nat → result unit;
  convert_to_albumentations : value → nat → nat → result value;
  convert_from_albumentations : value → nat → nat → result value
}.

Record DataProcessor : Type := {
  params : Params;
  data_fields : list string
}.

(** What a method hands back: [None], or the mapping object it was given
    (whose contents are the state of the computation). *)
Inductive returned_ref : Type := RetNone | RetData.

Section Processor.

Context `{ops : DataProcessorOps}.
Variable torch_importable : bool.

(** [DataProcessor.__init__]; [additional_targets] is a dict, given by
    its items in insertion order. *)
Definition init (p : Params)
    (additional_targets : option (list (string * string))) : DataProcessor :=
  {| params := p;
     data_fields :=
       default_data_name ::
       match additional_targets with
       | None => []
       | Some items =>
           fst <$> List.filter (λ kv, String.eqb (snd kv) default_data_name) items
       end |}.

Variable self : DataProcessor.

Definition check_and_convert (data : value) (rows cols : nat)
    (direction : string) : result value :=
  if String.eqb (format (params self)) "albumentations" then
    let+ _ := check data rows cols in
    Ok data
  else if String.eqb direction "to" then
    convert_to_albumentations data rows cols
  else if String.eqb direction "from" then
    convert_from_albumentations data rows cols
  else
    Err (Raise ValueError
           ("Invalid direction. Must be `to` or `from`. Got `"
            ++ direction ++ "`")).

(** [[*list(d), field_value] for d, field_value in zip(rows, labels)] *)
Fixpoint zip_append (rows labels : list value) : result (list value) :=
  match rows, labels with
  | d :: rows', field_value :: labels' =>
      let+ items := py_iter d in
      let+ rest := zip_append rows' labels' in
      Ok (VList (items ++ [field_value])%list :: rest)
  | _, _ => Ok []
  end.

(** The body of the inner loop of [add_label_fields_to_data]. *)
Definition add_label_field (data_name field : string) : M unit :=
  let* a := getitem data_name in
  let* n := lift (py_len a) in
  let* b := getitem field in
  let* m := lift (py_len b) in
  if negb (Nat.eqb n m) then raise (Raise ValueError "")
  else
    let* a := getitem data_name in
    let* b := getitem field in
    let* xs := lift (py_iter a) in
    let* ys := lift (py_iter b) in
    let* data_with_added_field := lift (zip_append xs ys) in
    setitem data_name (VList data_with_added_field).

Definition add_label_fields_to_data : M returned_ref :=
  match label_fields (params self) with
  | None => ret RetData
  | Some fields =>
      let* _ :=
        for_each (data_fields self) (λ data_name,
          for_each fields (λ field, add_label_field data_name field)) in
      ret RetData
  end.

(** [data[field] = [bbox[-label_fields_len + idx] for bbox in data[data_name]]] *)
Definition split_label_field (data_name : string) (label_fields_len : nat)
    (idx : nat) (field : string) : M unit :=
  let* a := getitem data_name in
  let* bboxes := lift (py_iter a) in
  let* column :=
    lift (rmap (λ bbox,
            py_getitem bbox (- Z.of_nat label_fields_len + Z.of_nat idx))
          bboxes) in
  setitem field (VList column).

(** [data[data_name] = [d[:-label_fields_len] for d in data[data_name]]] *)
Definition drop_label_columns (data_name : string) (label_fields_len : nat)
    : M unit :=
  let* a := getitem data_name in
  let* ds := lift (py_iter a) in
  let* kept :=
    lift (rmap (λ d, py_slice_to d (- Z.of_nat label_fields_len)) ds) in
  setitem data_name (VList kept).

Definition remove_label_fields_from_data : M returned_ref :=
  match label_fields (params self) with
  | None => ret RetData
  | Some fields =>
      let* _ :=
        for_each (data_fields self) (λ data_name,
          let label_fields_len := length fields in
          let* _ :=
            for_enumerate 0 fields
              (split_label_field data_name label_fields_len) in
          if negb (Nat.eqb label_fields_len 0) then
            drop_label_columns data_name label_fields_len
          else ret tt) in
      ret RetData
  end.

Definition postprocess : M returned_ref :=
  let* image := getitem "image" in
  let* shape := lift (get_shape torch_importable image) in
  let* (rows, cols) := lift (unpack2 shape) in
  let* _ :=
    for_each (data_fields self) (λ data_name,
      let* d := getitem data_name in
      let* _data := lift (filter d rows cols data_name) in
      let* _data := lift (check_and_convert _data rows cols "from") in
      let* original := lift (convert_to_original_type _data) in
      setitem data_name original) in
  remove_label_fields_from_data.

Definition preprocess : M returned_ref :=
  let* _ := add_label_fields_to_data in
  let* image := getitem "image" in
  let* shape := lift (py_shape image) in
  let* (rows, cols) := lift (unpack2 (take 2 shape)) in
  let* _ :=
    for_each (data_fields self) (λ data_name,
      let* d := getitem data_name in
      let* internal := lift (convert_to_internal_type d) in
      let* _ := setitem data_name internal in
      let* d := getitem data_name in
      let* converted := lift (check_and_convert d rows cols "to") in
      setitem data_name converted) in
  ret RetNone.

End Processor.

(** ** Example processors *)

(** A processor for ["bboxes"] whose kind-specific operations pass every
    row set through. *)
Definition passthrough_ops : DataProcessorOps := {|
  default_data_name := "bboxes";
  convert_to_internal_type v := Ok v;
  convert_to_original_type v := Ok v;
  filter v _ _ _ := Ok v;
  check _ _ _ := Ok tt;
  convert_to_albumentations v _ _ := Ok v;
  convert_from_albumentations v _ _ := Ok v
|}.

(** A processor whose conversions are not implemented and whose [check]
    accepts only lists. *)
Definition unconverted_ops : DataProcessorOps := {|
  default_data_name := "keypoints";
  convert_to_internal_type v := Ok v;
  convert_to_original_type v := Ok v;
  filter v _ _ _ := Ok v;
  check v _ _ :=
    match v with
    | VList _ => Ok tt
    | _ => Err (Raise ValueError "Expected a list of keypoints")
    end;
  convert_to_albumentations _ _ _ := Err (Raise (OtherError "NotImplementedError") "");
  convert_from_albumentations _ _ _ := Err (Raise (OtherError "NotImplementedError") "")
|}.

Definition example_box : value := VList [VInt 10; VInt 10; VInt 50; VInt 50].

(** ** The wrapper [ensure_internal_format] *)

Section EnsureInternalFormatFacts.

Context {BatchInternalType Args : Type}.
Variable check_consistency : BatchInternalType → result unit.
Variable func : callable BatchInternalType Args.

Lemma ensure_internal_format_batch args b :
  call func args = Ok (Batch b) →
  ensure_internal_format check_consistency func args =
    (let+ _ := check_consistency b in Ok (Batch b)).
Proof. intros Hcall. unfold ensure_internal_format. by rewrite Hcall. Qed.

Lemma ensure_internal_format_propagates args e :
  call func args = Err e →
  ensure_internal_format check_consistency func args = Err e.
Proof. intros Hcall. unfold ensure_internal_format. by rewrite Hcall. Qed.

End EnsureInternalFormatFacts.

(** C8. The wrapper hands a value back only if the wrapped function returned
    a [BatchInternalType] instance on which [check_consistency()] ran without
    raising, and then hands back that very instance; an exception raised by
    [check_consistency()] reaches the caller instead of the value; and when
    the wrapped function returns anything else the wrapper raises a
    [TypeError] (naming the function and the type it returned). *)
Theorem ensure_internal_format_checks
    {BatchInternalType Args : Type}
    (check_consistency : BatchInternalType → result unit)
    (func : callable BatchInternalType Args) (args : Args) :
  (∀ r, ensure_internal_format check_consistency func args = Ok r →
        ∃ b, r = Batch b ∧ call func args = Ok (Batch b)
             ∧ check_consistency b = Ok tt)
  ∧ (∀ b e, call func args = Ok (Batch b) → check_consistency b = Err e →
        ensure_internal_format check_consistency func args = Err e)
  ∧ (∀ v, call func args = Ok (NotBatch v) →
        ensure_internal_format check_consistency func args =
          Err (Raise TypeError
                 ("The return from " ++ func_name func
                  ++ " should be a `BatchInternalType`, instead it returns a "
                  ++ type_repr v ++ "."))).
Proof.
  split; [|split].
  - intros r Hr. unfold ensure_internal_format in Hr.
    destruct (call func args) as [[b|v]|e] eqn:Hcall; simpl in Hr; try discriminate.
    destruct (check_consistency b) as [[]|e] eqn:Hcheck; simpl in Hr; try discriminate.
    exists b. by inversion Hr.
  - intros b e Hcall Hcheck.
    rewrite (ensure_internal_format_batch _ _ _ _ Hcall). by rewrite Hcheck.
  - intros v Hcall. unfold ensure_internal_format. by rewrite Hcall.
Qed.

(** A batch of boxes is consistent when it has as many label rows as
    boxes. *)
Definition example_check_consistency (b : list Z * list Z) : result unit :=
  if Nat.eqb (length b.1) (length b.2) then Ok tt
  else Err (Raise ValueError "inconsistent batch").

Definition example_flip : callable (list Z * list Z) (list Z * list Z) :=
  Callable "flip" (λ b, Ok (Batch (rev b.1, rev b.2))).

Definition example_leak : callable (list Z * list Z) (list Z * list Z) :=
  Callable "leak" (λ b, Ok (NotBatch (VList (VInt <$> b.1)))).

Lemma ensure_internal_format_checks_witness :
  (∃ b, Batch ([2; 1]%Z, [4; 3]%Z) = Batch b
        ∧ call example_flip ([1; 2]%Z, [3; 4]%Z) = Ok (Batch b)
        ∧ example_check_consistency b = Ok tt)
  ∧ ensure_internal_format example_check_consistency example_flip
      ([1; 2]%Z, [3]%Z) = Err (Raise ValueError "inconsistent batch")
  ∧ ensure_internal_format example_check_consistency example_leak
      ([1; 2]%Z, [3; 4]%Z) =
    Err (Raise TypeError
           "The return from leak should be a `BatchInternalType`, instead it returns a <class 'list'>.").
Proof.
  split; [|split].
  - apply (proj1 (ensure_internal_format_checks example_check_consistency
                    example_flip ([1; 2]%Z, [3; 4]%Z))).
    reflexivity.
  - apply (proj1 (proj2 (ensure_internal_format_checks example_check_consistency
                    example_flip ([1; 2]%Z, [3]%Z))) ([2; 1]%Z, [3]%Z));
      reflexivity.
  - exact (proj2 (proj2 (ensure_internal_format_checks example_check_consistency
                    example_leak ([1; 2]%Z, [3; 4]%Z)))
             (VList [VInt 1; VInt 2]) eq_refl).
Defined.

(** ** [get_shape] *)

(** C6. For an array image [get_shape] returns its first two dimensions, for
    a tensor image (with [torch] importable) its last two, and for every
    other value it raises a [RuntimeError] whose message ends with the
    type of the value. *)
Theorem get_shape_spec :
  (∀ torch rows cols rest,
      get_shape torch (VArray (rows :: cols :: rest)) = Ok [rows; cols])
  ∧ (∀ batch rows cols,
      get_shape true (VTensor (batch ++ [rows; cols])%list) = Ok [rows; cols])
  ∧ (∀ torch img,
      isinstance_ndarray img = false → is_tensor img = false →
      get_shape torch img =
        Err (Raise RuntimeError
               ("Albumentations supports only numpy.ndarray and torch.Tensor data type for image. Got: "
                ++ "<class '" ++ type_name img ++ "'>"))).
Proof.
  split; [|split].
  - reflexivity.
  - intros batch rows cols. unfold get_shape. simpl. f_equal.
    unfold last2. rewrite length_app. simpl.
    replace (length batch + 2 - 2) with (length batch) by lia.
    by rewrite drop_app_length.
  - intros torch img Harr Hten. unfold get_shape.
    rewrite Harr, Hten, andb_false_r. reflexivity.
Qed.

Lemma get_shape_spec_witness :
  get_shape false (VArray [100; 200; 3]) = Ok [100; 200]
  ∧ get_shape true (VTensor [3; 100; 200]) = Ok [100; 200]
  ∧ get_shape true (VObj "PIL.Image.Image") =
      Err (Raise RuntimeError
             "Albumentations supports only numpy.ndarray and torch.Tensor data type for image. Got: <class 'PIL.Image.Image'>").
Proof.
  split; [|split].
  - apply (proj1 get_shape_spec).
  - apply (proj1 (proj2 get_shape_spec) [3] 100 200).
  - exact (proj2 (proj2 get_shape_spec) true (VObj "PIL.Image.Image")
             eq_refl eq_refl).
Defined.

(** ** [check_and_convert] *)

Section CheckAndConvert.

Context `{ops : DataProcessorOps}.
Variable self : DataProcessor.

Lemma check_and_convert_canonical data rows cols direction :
  format (params self) = "albumentations" →
  check_and_convert self data rows cols direction =
    (let+ _ := check data rows cols in Ok data).
Proof. intros Hfmt. unfold check_and_convert. by rewrite Hfmt. Qed.

Lemma check_and_convert_to data rows cols :
  format (params self) ≠ "albumentations" →
  check_and_convert self data rows cols "to" =
    convert_to_albumentations data rows cols.
Proof.
  intros Hfmt. unfold check_and_convert.
  by apply String.eqb_neq in Hfmt as ->.
Qed.

Lemma check_and_convert_from data rows cols :
  format (params self) ≠ "albumentations" →
  check_and_convert self data rows cols "from" =
    convert_from_albumentations data rows cols.
Proof.
  intros Hfmt. unfold check_and_convert.
  by apply String.eqb_neq in Hfmt as ->.
Qed.

End CheckAndConvert.

(** C3. With [format = "albumentations"], [check_and_convert] runs [check]
    and nothing else: for every direction argument, ["to"] and ["from"]
    included, it returns the rows it was given whenever [check] accepts
    them, and raises what [check] raises otherwise, whatever the two
    conversions of the processor would do. *)
Theorem check_and_convert_canonical_identity `{ops : DataProcessorOps}
    (self : DataProcessor) (data : value) (rows cols : nat)
    (direction : string) :
  format (params self) = "albumentations" →
  (check data rows cols = Ok tt →
     check_and_convert self data rows cols direction = Ok data)
  ∧ (∀ e, check data rows cols = Err e →
     check_and_convert self data rows cols direction = Err e).
Proof.
  intros Hfmt. rewrite (check_and_convert_canonical self _ _ _ _ Hfmt).
  split; [intros ->|intros e ->]; reflexivity.
Qed.

Definition canonical_keypoints : DataProcessor :=
  init (ops:=unconverted_ops)
    {| format := "albumentations"; label_fields := None |} None.

Lemma check_and_convert_canonical_identity_witness :
  check_and_convert (ops:=unconverted_ops) canonical_keypoints
    (VList [example_box]) 100 200 "from" = Ok (VList [example_box])
  ∧ check_and_convert (ops:=unconverted_ops) canonical_keypoints
      (VInt 7) 100 200 "to" =
    Err (Raise ValueError "Expected a list of keypoints").
Proof.
  split.
  - exact (proj1 (check_and_convert_canonical_identity (ops:=unconverted_ops)
             canonical_keypoints (VList [example_box]) 100 200 "from"
             eq_refl) eq_refl).
  - exact (proj2 (check_and_convert_canonical_identity (ops:=unconverted_ops)
             canonical_keypoints (VInt 7) 100 200 "to"
             eq_refl) _ eq_refl).
Defined.

(** C4. With any other format, a direction that is neither ["to"] nor
    ["from"] makes [check_and_convert] raise a [ValueError]. *)
Theorem check_and_convert_invalid_direction `{ops : DataProcessorOps}
    (self : DataProcessor) (data : value) (rows cols : nat)
    (direction : string) :
  format (params self) ≠ "albumentations" →
  direction ≠ "to" → direction ≠ "from" →
  check_and_convert self data rows cols direction =
    Err (Raise ValueError
           ("Invalid direction. Must be `to` or `from`. Got `"
            ++ direction ++ "`")).
Proof.
  intros Hfmt Hto Hfrom. unfold check_and_convert.
  apply String.eqb_neq in Hfmt as ->.
  apply String.eqb_neq in Hto as ->.
  by apply String.eqb_neq in Hfrom as ->.
Qed.

Definition coco_boxes : DataProcessor :=
  init (ops:=passthrough_ops)
    {| format := "coco"; label_fields := Some ["class_id"] |} None.

Lemma check_and_convert_invalid_direction_witness :
  check_and_convert (ops:=passthrough_ops) coco_boxes
    (VList [example_box]) 100 200 "x" =
  Err (Raise ValueError "Invalid direction. Must be `to` or `from`. Got `x`").
Proof.
  apply (check_and_convert_invalid_direction (ops:=passthrough_ops)
           coco_boxes (VList [example_box]) 100 200 "x"); discriminate.
Defined.

(** ** Running computations on a mapping *)

Section RunLemmas.

Context {A B : Type}.

Lemma bind_ok (m : M A) (k : A → M B) σ σ' a :
  m σ = (σ', Ok a) → bind m k σ = k a σ'.
Proof. intros Hm. unfold bind. by rewrite Hm. Qed.

Lemma bind_err (m : M A) (k : A → M B) σ σ' e :
  m σ = (σ', Err e) → bind m k σ = (σ', Err e).
Proof. intros Hm. unfold bind. by rewrite Hm. Qed.

Lemma bind_inv_ok (m : M A) (k : A → M B) σ σ'' b :
  bind m k σ = (σ'', Ok b) →
  ∃ σ' a, m σ = (σ', Ok a) ∧ k a σ' = (σ'', Ok b).
Proof.
  unfold bind. destruct (m σ) as [σ' [a|e]]; [eauto | discriminate].
Qed.

Lemma bind_lift_ok (r : result A) (k : A → M B) σ a :
  r = Ok a → bind (lift r) k σ = k a σ.
Proof. by intros ->. Qed.

Lemma bind_lift_err (r : result A) (k : A → M B) σ e :
  r = Err e → bind (lift r) k σ = (σ, Err e).
Proof. by intros ->. Qed.

End RunLemmas.

Lemma getitem_Some k v (σ : dict) : σ !! k = Some v → getitem k σ = (σ, Ok v).
Proof. intros H. unfold getitem. by rewrite H. Qed.

Lemma bind_getitem {B} k v (f : value → M B) (σ : dict) :
  σ !! k = Some v → bind (getitem k) f σ = f v σ.
Proof. intros H. apply bind_ok. by apply getitem_Some. Qed.

Lemma bind_setitem {B} k v (f : unit → M B) (σ : dict) :
  bind (setitem k v) f σ = f tt (<[k:=v]> σ).
Proof. reflexivity. Qed.

Lemma bind_assoc {A B C} (m : M A) (f : A → M B) (g : B → M C) σ :
  bind (bind m f) g σ = bind m (λ x, bind (f x) g) σ.
Proof. unfold bind. by destruct (m σ) as [σ' [a|e]]. Qed.

Lemma bind_ret {A B} (a : A) (f : A → M B) σ : bind (ret a) f σ = f a σ.
Proof. reflexivity. Qed.

(** One step of a computation on a mapping given by its entries. *)
Ltac run_step :=
  first
    [ rewrite bind_assoc
    | rewrite bind_ret
    | erewrite bind_getitem by (vm_compute; reflexivity)
    | rewrite bind_setitem
    | erewrite bind_lift_ok by (first [reflexivity | eassumption | eauto]) ].

Lemma for_each_app {A} (xs ys : list A) (body : A → M unit) σ :
  for_each (xs ++ ys) body σ =
    bind (for_each xs body) (λ _, for_each ys body) σ.
Proof.
  revert σ. induction xs as [|x xs IH]; intros σ; simpl; [done|].
  unfold bind. destruct (body x σ) as [σ' [[]|e]]; [|done].
  rewrite IH. reflexivity.
Qed.

(** ** Rows and label columns

    The annotation rows of a data field are a list of lists; the helper
    functions below describe, on such rows, what the two label methods
    compute. *)

(** The value of a data field holding the rows [rowss]. *)
Definition rows_val (rowss : list (list value)) : value :=
  VList (VList <$> rowss).

(** Rows with one label column attached, and with several. *)
Definition add_col (rowss : list (list value)) (c : list value)
    : list (list value) :=
  zip_with (λ r v, r ++ [v])%list rowss c.

Definition add_cols (rowss : list (list value)) (cs : list (list value))
    : list (list value) :=
  foldl add_col rowss cs.

(** [r[-n + idx]] and [r[:-n]] on a row with at least [n] items. *)
Definition pick (n idx : nat) (r : list value) : value :=
  default VNone (r !! (length r - n + idx)).

Definition strip (n : nat) (r : list value) : list value :=
  take (length r - n) r.

Section RowLemmas.

Local Close Scope string_scope.

Implicit Types (rowss : list (list value)) (c : list value)
  (cs : list (list value)) (n idx : nat).

Lemma length_add_col rowss c :
  length c = length rowss → length (add_col rowss c) = length rowss.
Proof. intros H. unfold add_col. rewrite length_zip_with. lia. Qed.

Lemma add_cols_snoc rowss cs c :
  add_cols rowss (cs ++ [c]) = add_col (add_cols rowss cs) c.
Proof. unfold add_cols. by rewrite foldl_app. Qed.

Lemma length_add_cols rowss cs :
  Forall (λ c, length c = length rowss) cs →
  length (add_cols rowss cs) = length rowss.
Proof.
  induction cs as [|c cs IH] using rev_ind; intros Hcs; [done|].
  apply Forall_app in Hcs as [Hcs Hc]. apply Forall_inv in Hc.
  rewrite add_cols_snoc, length_add_col; [by apply IH|].
  rewrite IH; done.
Qed.

Lemma add_col_long n rowss c :
  Forall (λ r, n ≤ length r) rowss →
  Forall (λ r, S n ≤ length r) (add_col rowss c).
Proof.
  intros H. revert c. induction H as [|r rowss Hr _ IH]; intros [|v c];
    simpl; constructor; auto.
  rewrite length_app. simpl. lia.
Qed.

Lemma add_cols_long rowss cs :
  Forall (λ r, length cs ≤ length r) (add_cols rowss cs).
Proof.
  induction cs as [|c cs IH] using rev_ind.
  - simpl. apply Forall_forall. intros; lia.
  - rewrite add_cols_snoc, length_app. simpl.
    replace (length cs + 1) with (S (length cs)) by lia.
    by apply add_col_long.
Qed.

Lemma strip_add_col n rowss c :
  length c = length rowss →
  strip (S n) <$> add_col rowss c = strip n <$> rowss.
Proof.
  revert c. induction rowss as [|r rowss IH]; intros [|v c] Hlen;
    simpl in *; try done.
  f_equal; [|apply IH; lia].
  unfold strip. rewrite length_app. simpl.
  replace (length r + 1 - S n) with (length r - n) by lia.
  apply take_app_le. lia.
Qed.

Lemma pick_add_col_old n idx rowss c :
  length c = length rowss → idx < n →
  Forall (λ r, n ≤ length r) rowss →
  pick (S n) idx <$> add_col rowss c = pick n idx <$> rowss.
Proof.
  intros Hlen Hidx H. revert c Hlen.
  induction H as [|r rowss Hr _ IH]; intros [|v c] Hlen;
    simpl in *; try done.
  f_equal; [|apply IH; lia].
  unfold pick. rewrite length_app. simpl.
  replace (length r + 1 - S n + idx) with (length r - n + idx) by lia.
  rewrite lookup_app_l by lia. done.
Qed.

Lemma pick_add_col_new n rowss c :
  length c = length rowss →
  Forall (λ r, n ≤ length r) rowss →
  pick (S n) n <$> add_col rowss c = c.
Proof.
  intros Hlen H. revert c Hlen.
  induction H as [|r rowss Hr _ IH]; intros [|v c] Hlen;
    simpl in *; try done.
  f_equal; [|apply IH; lia].
  unfold pick. rewrite length_app. simpl.
  replace (length r + 1 - S n + n) with (length r + 0) by lia.
  by rewrite lookup_app_r, Nat.add_0_r, Nat.sub_diag by lia.
Qed.

Lemma strip_add_cols rowss cs :
  Forall (λ c, length c = length rowss) cs →
  strip (length cs) <$> add_cols rowss cs = rowss.
Proof.
  induction cs as [|c cs IH] using rev_ind; intros Hcs.
  - clear Hcs. simpl. induction rowss as [|r rowss IHr]; [done|].
    rewrite fmap_cons, IHr. f_equal.
    unfold strip. rewrite Nat.sub_0_r. apply firstn_all.
  - apply Forall_app in Hcs as [Hcs Hc]. apply Forall_inv in Hc.
    rewrite add_cols_snoc, length_app. simpl.
    replace (length cs + 1) with (S (length cs)) by lia.
    rewrite strip_add_col; [by apply IH|].
    by rewrite length_add_cols.
Qed.

Lemma pick_add_cols rowss cs idx c :
  Forall (λ c, length c = length rowss) cs →
  cs !! idx = Some c →
  pick (length cs) idx <$> add_cols rowss cs = c.
Proof.
  revert idx c. induction cs as [|c' cs IH] using rev_ind;
    intros idx c Hcs Hidx; [done|].
  apply Forall_app in Hcs as [Hcs Hc']. apply Forall_inv in Hc'.
  rewrite add_cols_snoc, length_app. simpl.
  replace (length cs + 1) with (S (length cs)) by lia.
  destruct (decide (idx < length cs)) as [Hlt|Hge].
  - rewrite lookup_app_l in Hidx by done.
    rewrite pick_add_col_old; [by apply IH| |done|apply add_cols_long].
    by rewrite length_add_cols.
  - rewrite lookup_app_r in Hidx by lia.
    destruct (idx - length cs) as [|k] eqn:Hk; [|done].
    simpl in Hidx. inversion Hidx; subst c'.
    assert (idx = length cs) as -> by lia.
    apply pick_add_col_new; [|apply add_cols_long].
    by rewrite length_add_cols.
Qed.

End RowLemmas.

(** ** Attaching label columns: [add_label_fields_to_data] *)

(** The mapping with every field of [ds] set to [g] of its name, the fields
    taken from left to right. *)
Definition set_fields (g : string → value) (ds : list string) (σ : dict)
    : dict :=
  foldl (λ acc d, <[d := g d]> acc) σ ds.

Lemma lookup_set_fields g ds (σ : dict) k :
  set_fields g ds σ !! k = if decide (k ∈ ds) then Some (g k) else σ !! k.
Proof.
  revert σ. induction ds as [|d ds IH]; intros σ.
  - change (set_fields g [] σ) with σ.
    rewrite decide_False; [done|apply not_elem_of_nil].
  - change (set_fields g (d :: ds) σ) with (set_fields g ds (<[d:=g d]> σ)).
    rewrite IH.
    destruct (decide (k ∈ ds)) as [Hin|Hnin].
    + rewrite decide_True; [done|by right].
    + destruct (decide (k = d)) as [->|Hne].
      * rewrite decide_True by left. apply lookup_insert_eq.
      * rewrite decide_False by (by intros [?|?]%elem_of_cons).
        by apply lookup_insert_ne.
Qed.

Lemma set_fields_app g ds ds' (σ : dict) :
  set_fields g (ds ++ ds') σ = set_fields g ds' (set_fields g ds σ).
Proof. unfold set_fields. apply foldl_app. Qed.

Section AddLabels.

Local Close Scope string_scope.

Implicit Types (σ : dict) (d l : string) (rowss : list (list value))
  (c : list value) (cs : list (list value)) (ls ds : list string).

Lemma zip_append_rows rowss c :
  zip_append (VList <$> rowss) c = Ok (VList <$> add_col rowss c).
Proof.
  revert c. induction rowss as [|r rowss IH]; intros [|v c]; simpl; try done.
  by rewrite IH.
Qed.

Lemma add_label_field_ok d l σ rowss c :
  σ !! d = Some (rows_val rowss) → σ !! l = Some (VList c) →
  length c = length rowss →
  add_label_field d l σ = (<[d := rows_val (add_col rowss c)]> σ, Ok tt).
Proof.
  intros Hd Hl Hlen. unfold add_label_field.
  rewrite (bind_getitem _ _ _ _ Hd). unfold rows_val at 1.
  rewrite (bind_lift_ok _ _ _ (length (VList <$> rowss))) by done.
  rewrite (bind_getitem _ _ _ _ Hl).
  rewrite (bind_lift_ok _ _ _ (length c)) by done.
  rewrite length_fmap, <- Hlen, Nat.eqb_refl. simpl.
  rewrite (bind_getitem _ _ _ _ Hd), (bind_getitem _ _ _ _ Hl).
  unfold rows_val at 1.
  rewrite (bind_lift_ok _ _ _ (VList <$> rowss)) by done.
  rewrite (bind_lift_ok _ _ _ c) by done.
  rewrite (bind_lift_ok _ _ _ _ (zip_append_rows rowss c)).
  reflexivity.
Qed.

Lemma add_label_field_mismatch d l σ (rows : list value) c :
  σ !! d = Some (VList rows) → σ !! l = Some (VList c) →
  length c ≠ length rows →
  add_label_field d l σ = (σ, Err (Raise ValueError "")).
Proof.
  intros Hd Hl Hlen. unfold add_label_field.
  rewrite (bind_getitem _ _ _ _ Hd).
  rewrite (bind_lift_ok _ _ _ (length rows)) by done.
  rewrite (bind_getitem _ _ _ _ Hl).
  rewrite (bind_lift_ok _ _ _ (length c)) by done.
  assert (Nat.eqb (length rows) (length c) = false) as ->
    by (apply Nat.eqb_neq; congruence).
  reflexivity.
Qed.

Lemma Forall2_fresh {X} (P : string → X → Prop) d ls (xs : list X) :
  d ∉ ls → Forall2 P ls xs → Forall2 (λ l x, l ≠ d ∧ P l x) ls xs.
Proof.
  intros Hnin H. induction H as [|l x ls xs HP _ IH]; constructor.
  - split; [|done]. intros ->. apply Hnin. left.
  - apply IH. intros Hin. apply Hnin. by right.
Qed.

Lemma Forall2_columns_fit σ ls cs n :
  Forall2 (λ l c, σ !! l = Some (VList c) ∧ length c = n) ls cs →
  Forall (λ c, length c = n) cs.
Proof.
  intros H. induction H as [|l c ls cs [_ Hlen] _ IH]; constructor; done.
Qed.

(** The inner loop, over label fields that all fit the rows of [d]. *)
Lemma add_label_fields_inner d ls cs : ∀ σ rowss,
  σ !! d = Some (rows_val rowss) → d ∉ ls →
  Forall2 (λ l c, σ !! l = Some (VList c) ∧ length c = length rowss) ls cs →
  for_each ls (add_label_field d) σ =
    (<[d := rows_val (add_cols rowss cs)]> σ, Ok tt).
Proof.
  intros σ rowss Hd Hnin Hcs. apply (Forall2_fresh _ _ _ _ Hnin) in Hcs.
  clear Hnin. revert σ rowss Hd Hcs.
  revert cs. induction ls as [|l ls IH]; intros cs σ rowss Hd Hcs.
  - apply Forall2_nil_inv_l in Hcs as ->. simpl. unfold ret.
    by rewrite insert_id.
  - apply Forall2_cons_inv_l in Hcs as (c & cs' & (Hne & Hl & Hlen) & Hcs & ->).
    simpl.
    rewrite (bind_ok _ _ _ _ _ (add_label_field_ok _ _ _ _ _ Hd Hl Hlen)).
    rewrite (IH cs' _ (add_col rowss c)); [|by apply lookup_insert_eq|].
    + by rewrite insert_insert_eq.
    + eapply Forall2_impl; [exact Hcs|]. intros l' c' (Hne' & Hl' & Hlen').
      rewrite lookup_insert_ne by done. by rewrite length_add_col.
Qed.

(** The inner loop stopping at the first label field that does not fit:
    the columns before it are already attached. *)
Lemma add_label_fields_inner_mismatch d ls1 l ls2 cs1 c σ rowss :
  σ !! d = Some (rows_val rowss) → d ∉ ls1 →
  Forall2 (λ l c, σ !! l = Some (VList c) ∧ length c = length rowss)
    ls1 cs1 →
  σ !! l = Some (VList c) → length c ≠ length rowss →
  for_each (ls1 ++ l :: ls2) (add_label_field d) σ =
    (<[d := rows_val (add_cols rowss cs1)]> σ, Err (Raise ValueError "")).
Proof.
  intros Hd Hnin Hcs Hl Hlen.
  assert (l ≠ d) as Hne.
  { intros ->. rewrite Hd in Hl. injection Hl as <-.
    by rewrite length_fmap in Hlen. }
  rewrite for_each_app.
  rewrite (bind_ok _ _ _ _ _ (add_label_fields_inner _ _ _ _ _ Hd Hnin Hcs)).
  simpl. apply bind_err.
  apply add_label_field_mismatch
    with (rows := VList <$> add_cols rowss cs1) (c := c).
  - apply lookup_insert_eq.
  - by rewrite lookup_insert_ne.
  - rewrite length_fmap, length_add_cols; [done|].
    eapply Forall2_columns_fit, Hcs.
Qed.

Lemma Forall2_and_r {X Y} (P : X → Y → Prop) (Q : Y → Prop) xs ys :
  Forall2 P xs ys → (∀ y, y ∈ ys → Q y) →
  Forall2 (λ x y, P x y ∧ Q y) xs ys.
Proof.
  intros H HQ. induction H as [|x y xs ys HP _ IH]; constructor.
  - split; [done|]. apply HQ. left.
  - apply IH. intros y' Hy'. apply HQ. by right.
Qed.

(** The whole double loop, when every label column fits every data
    field: each data field ends with all the columns attached. *)
Lemma add_label_fields_outer (R : string → list (list value)) ls cs ds :
  ∀ σ,
  NoDup ds → (∀ d, d ∈ ds → d ∉ ls) →
  (∀ d, d ∈ ds → σ !! d = Some (rows_val (R d))) →
  Forall2 (λ l c, σ !! l = Some (VList c)) ls cs →
  (∀ d c, d ∈ ds → c ∈ cs → length c = length (R d)) →
  for_each ds (λ d, for_each ls (add_label_field d)) σ =
    (set_fields (λ d, rows_val (add_cols (R d) cs)) ds σ, Ok tt).
Proof.
  induction ds as [|d ds IH]; intros σ Hnd Hdis Hrows Hcs Hlen; [done|].
  apply NoDup_cons in Hnd as [Hd Hnd]. simpl.
  assert (d ∉ ls) as Hdls by (apply Hdis; left).
  erewrite bind_ok; cycle 1.
  { apply (add_label_fields_inner d ls cs σ (R d)); [apply Hrows; left|done|].
    apply Forall2_and_r; [done|]. intros c Hc. apply Hlen; [left|done]. }
  apply IH; [done| | | |].
  - intros d' Hd'. apply Hdis. by right.
  - intros d' Hd'. rewrite lookup_insert_ne by (by intros ->).
    apply Hrows. by right.
  - eapply Forall2_impl; [exact (Forall2_fresh _ _ _ _ Hdls Hcs)|].
    intros l c [Hne Hl]. by rewrite lookup_insert_ne.
  - intros d' c Hd' Hc. apply Hlen; [by right|done].
Qed.

End AddLabels.

Lemma Forall2_lookup_set_fields g ds (σ : dict) (ls : list string)
    (cs : list (list value)) :
  (∀ l, l ∈ ls → l ∉ ds) →
  Forall2 (λ l c, σ !! l = Some (VList c)) ls cs →
  Forall2 (λ l c, set_fields g ds σ !! l = Some (VList c)) ls cs.
Proof.
  intros Hdis H. induction H as [|l c ls cs Hl _ IH]; constructor.
  - rewrite lookup_set_fields, decide_False; [done|]. apply Hdis. left.
  - apply IH. intros l' Hl'. apply Hdis. by right.
Qed.

(** C10. [add_label_fields_to_data] is not atomic.  When the first label
    column that does not fit is met at data field [d] and label field [l],
    the call raises [ValueError], and the mapping it leaves behind has all
    the label columns attached to the rows of the data fields before [d],
    and the columns of the label fields before [l] attached to the rows of
    [d]. *)
Theorem add_label_fields_not_atomic (self : DataProcessor)
    (R : string → list (list value))
    (ds1 : list string) (d : string) (ds2 : list string)
    (ls1 : list string) (l : string) (ls2 : list string)
    (cs1 : list (list value)) (c : list value) (cs2 : list (list value))
    (σ : dict) :
  data_fields self = (ds1 ++ d :: ds2)%list →
  label_fields (params self) = Some (ls1 ++ l :: ls2)%list →
  NoDup (ds1 ++ [d]) →
  (∀ d', d' ∈ (ds1 ++ [d])%list → d' ∉ (ls1 ++ l :: ls2)%list) →
  (∀ d', d' ∈ (ds1 ++ [d])%list → σ !! d' = Some (rows_val (R d'))) →
  Forall2 (λ l' c', σ !! l' = Some (VList c')) ls1 cs1 →
  σ !! l = Some (VList c) →
  Forall2 (λ l' c', σ !! l' = Some (VList c')) ls2 cs2 →
  (∀ d' c', d' ∈ ds1 → c' ∈ (cs1 ++ c :: cs2)%list →
            length c' = length (R d')) →
  (∀ c', c' ∈ cs1 → length c' = length (R d)) →
  length c ≠ length (R d) →
  add_label_fields_to_data self σ =
    (<[d := rows_val (add_cols (R d) cs1)]>
       (set_fields (λ d', rows_val (add_cols (R d') (cs1 ++ c :: cs2))) ds1 σ),
     Err (Raise ValueError "")).
Proof.
  intros Hds Hls Hnd Hdis Hrows Hcs1 Hl Hcs2 Hlen1 Hlend Hbad.
  apply NoDup_app in Hnd as (Hnd1 & Hd1 & _).
  assert (d ∉ ds1) as Hdnin.
  { intros Hin. apply (Hd1 d Hin). left. }
  unfold add_label_fields_to_data. rewrite Hls, Hds.
  apply bind_err. rewrite for_each_app.
  erewrite bind_ok; cycle 1.
  { apply (add_label_fields_outer R (ls1 ++ l :: ls2) (cs1 ++ c :: cs2) ds1 σ);
      [done| | | |done].
    - intros d' Hd'. apply Hdis, elem_of_app. by left.
    - intros d' Hd'. apply Hrows, elem_of_app. by left.
    - apply Forall2_app; [done|]. by constructor. }
  simpl. apply bind_err.
  assert (d ∉ (ls1 ++ l :: ls2)%list) as Hdls.
  { apply Hdis, elem_of_app. right. left. }
  apply add_label_fields_inner_mismatch with (c := c).
  - rewrite lookup_set_fields, decide_False by done.
    apply Hrows, elem_of_app. right. left.
  - intros Hin. apply Hdls, elem_of_app. by left.
  - apply Forall2_and_r; [|done].
    apply Forall2_lookup_set_fields; [|done].
    intros l' Hl' Hin. apply (Hdis l'); apply elem_of_app; by left.
  - rewrite lookup_set_fields, decide_False; [done|].
    intros Hin. apply (Hdis l); apply elem_of_app; [by left|].
    right. left.
  - done.
Qed.

Definition two_box_fields : DataProcessor :=
  init (ops:=passthrough_ops)
    {| format := "albumentations"; label_fields := Some ["class_id"; "score"] |}
    (Some [("bboxes2", "bboxes"); ("mask2", "mask")]).

Definition example_box2 : value := VList [VInt 0; VInt 0; VInt 20; VInt 30].

(** One box under ["bboxes"], two under ["bboxes2"], one label each. *)
Definition uneven_data : dict :=
  <["image" := VArray [100; 200; 3]]>
    (<["bboxes" := VList [example_box]]>
       (<["bboxes2" := VList [example_box; example_box2]]>
          (<["class_id" := VList [VInt 3]]>
             (<["score" := VList [VInt 9]]> ∅)))).

Definition uneven_rows (d : string) : list (list value) :=
  if String.eqb d "bboxes" then [[VInt 10; VInt 10; VInt 50; VInt 50]]
  else [[VInt 10; VInt 10; VInt 50; VInt 50];
        [VInt 0; VInt 0; VInt 20; VInt 30]].

Lemma add_label_fields_not_atomic_witness :
  add_label_fields_to_data two_box_fields uneven_data =
    (<["bboxes2" := VList [example_box; example_box2]]>
       (<["bboxes" :=
            VList [VList [VInt 10; VInt 10; VInt 50; VInt 50; VInt 3; VInt 9]]]>
          uneven_data),
     Err (Raise ValueError "")).
Proof.
  apply (add_label_fields_not_atomic two_box_fields uneven_rows
           ["bboxes"] "bboxes2" [] [] "class_id" ["score"]
           [] [VInt 3] [[VInt 9]] uneven_data).
  - reflexivity.
  - reflexivity.
  - apply (bool_decide_unpack _). vm_compute. exact I.
  - intros d' Hd'. apply (bool_decide_unpack _).
    apply list_elem_of_In in Hd'. simpl in Hd'.
    destruct Hd' as [<-|[<-|[]]]; vm_compute; exact I.
  - intros d' Hd'. apply list_elem_of_In in Hd'. simpl in Hd'.
    destruct Hd' as [<-|[<-|[]]]; reflexivity.
  - constructor.
  - reflexivity.
  - repeat constructor.
  - intros d' c' Hd' Hc'. apply list_elem_of_In in Hd', Hc'. simpl in Hd', Hc'.
    destruct Hd' as [<-|[]]. destruct Hc' as [<-|[<-|[]]]; reflexivity.
  - intros c' Hc'. by apply elem_of_nil in Hc'.
  - simpl. lia.
Defined.


(** ** Splitting label columns off: [remove_label_fields_from_data] *)

(** The mapping after the assignments [kvs], made from left to right. *)
Definition inserts (kvs : list (string * value)) (σ : dict) : dict :=
  foldl (λ acc kv, <[kv.1 := kv.2]> acc) σ kvs.

(** The label entries the inner loop writes from the rows [rowss], for the
    label fields [ls] numbered from [k]. *)
Fixpoint label_columns (n k : nat) (ls : list string)
    (rowss : list (list value)) : list (string * value) :=
  match ls with
  | [] => []
  | l :: ls' =>
      (l, VList (pick n k <$> rowss)) :: label_columns n (S k) ls' rowss
  end.

(** One round of the outer loop, on the data field [d] holding [rowss]. *)
Definition split_step (ls : list string) (d : string)
    (rowss : list (list value)) (σ : dict) : dict :=
  <[d := rows_val (strip (length ls) <$> rowss)]>
    (inserts (label_columns (length ls) 0 ls rowss) σ).

Section Inserts.

Local Close Scope string_scope.

Implicit Types (σ : dict) (kvs : list (string * value)).

Lemma lookup_inserts_fresh kvs σ k :
  k ∉ kvs.*1 → inserts kvs σ !! k = σ !! k.
Proof.
  revert σ. induction kvs as [|[k' v] kvs IH]; intros σ Hk; [done|].
  apply not_elem_of_cons in Hk as [Hne Hk].
  change (inserts ((k', v) :: kvs) σ) with (inserts kvs (<[k':=v]> σ)).
  rewrite IH by done. by apply lookup_insert_ne.
Qed.

Lemma lookup_inserts_NoDup kvs σ k v :
  NoDup kvs.*1 → (k, v) ∈ kvs → inserts kvs σ !! k = Some v.
Proof.
  revert σ. induction kvs as [|[k' v'] kvs IH]; intros σ Hnd Hin.
  - by apply elem_of_nil in Hin.
  - apply NoDup_cons in Hnd as [Hk' Hnd].
    change (inserts ((k', v') :: kvs) σ) with (inserts kvs (<[k':=v']> σ)).
    apply elem_of_cons in Hin as [Heq|Hin].
    + injection Heq as -> ->. rewrite lookup_inserts_fresh by done.
      apply lookup_insert_eq.
    + by apply IH.
Qed.

Lemma inserts_id kvs σ :
  Forall (λ kv, σ !! kv.1 = Some kv.2) kvs → inserts kvs σ = σ.
Proof.
  induction 1 as [|[k v] kvs Hkv _ IH]; [done|].
  change (inserts ((k, v) :: kvs) σ) with (inserts kvs (<[k:=v]> σ)).
  by rewrite insert_id.
Qed.

Lemma label_columns_keys n k ls rowss :
  (label_columns n k ls rowss).*1 = ls.
Proof. revert k. induction ls as [|l ls IH]; intros k; simpl; by f_equal. Qed.

Lemma label_columns_lookup n k ls rowss i l :
  ls !! i = Some l →
  (l, VList (pick n (k + i) <$> rowss)) ∈ label_columns n k ls rowss.
Proof.
  revert k i. induction ls as [|l' ls IH]; intros k [|i] Hi; try done.
  - injection Hi as ->. rewrite Nat.add_0_r. left.
  - simpl. right. replace (k + S i) with (S k + i) by lia. by apply IH.
Qed.

End Inserts.

Section SplitLabels.

Local Close Scope string_scope.

Implicit Types (σ : dict) (d l : string) (rowss : list (list value))
  (c : list value) (cs : list (list value)) (ls ds : list string).

Lemma py_getitem_pick n idx (r : list value) :
  idx < n → n ≤ length r →
  py_getitem (VList r) (- Z.of_nat n + Z.of_nat idx) = Ok (pick n idx r).
Proof.
  intros Hidx Hn. unfold py_getitem, py_iter, rbind, norm_index.
  destruct (Z.leb_spec 0 (- Z.of_nat n + Z.of_nat idx)) as [?|_]; [lia|].
  destruct (Z.leb_spec (- Z.of_nat (length r))
              (- Z.of_nat n + Z.of_nat idx)) as [_|?]; [|lia].
  replace (Z.to_nat (Z.of_nat (length r) + (- Z.of_nat n + Z.of_nat idx)))
    with (length r - n + idx) by lia.
  unfold pick.
  destruct (lookup_lt_is_Some_2 r (length r - n + idx)) as [x Hx]; [lia|].
  by rewrite Hx.
Qed.

Lemma py_slice_to_strip n (r : list value) :
  0 < n → py_slice_to (VList r) (- Z.of_nat n) = Ok (VList (strip n r)).
Proof.
  intros Hn. unfold py_slice_to, slice_stop, strip.
  destruct (Z.leb_spec 0 (- Z.of_nat n)) as [?|_]; [lia|].
  do 3 f_equal. lia.
Qed.

Lemma rmap_pick n idx rowss :
  idx < n → Forall (λ r, n ≤ length r) rowss →
  rmap (λ bbox, py_getitem bbox (- Z.of_nat n + Z.of_nat idx))
       (VList <$> rowss) = Ok (pick n idx <$> rowss).
Proof.
  intros Hidx H. induction H as [|r rowss Hr _ IH]; [done|].
  rewrite !fmap_cons. cbn [rmap].
  rewrite py_getitem_pick by done. cbn [rbind]. by rewrite IH.
Qed.

Lemma rmap_strip n rowss :
  0 < n →
  rmap (λ row, py_slice_to row (- Z.of_nat n)) (VList <$> rowss) =
    Ok (VList <$> (strip n <$> rowss)).
Proof.
  intros Hn. induction rowss as [|r rowss IH]; [done|].
  rewrite !fmap_cons. cbn [rmap].
  rewrite py_slice_to_strip by done. cbn [rbind]. by rewrite IH.
Qed.

Lemma split_label_field_ok d n idx l σ rowss :
  σ !! d = Some (rows_val rowss) →
  idx < n → Forall (λ r, n ≤ length r) rowss →
  split_label_field d n idx l σ =
    (<[l := VList (pick n idx <$> rowss)]> σ, Ok tt).
Proof.
  intros Hd Hidx Hrows. unfold split_label_field.
  rewrite (bind_getitem _ _ _ _ Hd). unfold rows_val.
  rewrite (bind_lift_ok _ _ _ (VList <$> rowss)) by done.
  rewrite (bind_lift_ok _ _ _ _ (rmap_pick _ _ _ Hidx Hrows)).
  reflexivity.
Qed.

Lemma drop_label_columns_ok d n σ rowss :
  σ !! d = Some (rows_val rowss) → 0 < n →
  drop_label_columns d n σ =
    (<[d := rows_val (strip n <$> rowss)]> σ, Ok tt).
Proof.
  intros Hd Hn. unfold drop_label_columns.
  rewrite (bind_getitem _ _ _ _ Hd). unfold rows_val at 1.
  rewrite (bind_lift_ok _ _ _ (VList <$> rowss)) by done.
  rewrite (bind_lift_ok _ _ _ _ (rmap_strip _ _ Hn)).
  reflexivity.
Qed.

(** The inner loop writes one label entry per label field. *)
Lemma split_label_fields_inner d n rowss ls : ∀ k σ,
  σ !! d = Some (rows_val rowss) → d ∉ ls →
  k + length ls ≤ n → Forall (λ r, n ≤ length r) rowss →
  for_enumerate k ls (split_label_field d n) σ =
    (inserts (label_columns n k ls rowss) σ, Ok tt).
Proof.
  induction ls as [|l ls IH]; intros k σ Hd Hnin Hk Hrows; [done|].
  apply not_elem_of_cons in Hnin as [Hne Hnin]. simpl in Hk |- *.
  rewrite (bind_ok _ _ _ _ _
             (split_label_field_ok d n k l σ rowss Hd ltac:(lia) Hrows)).
  apply IH; [|done|lia|done].
  by rewrite lookup_insert_ne.
Qed.

(** One round of the outer loop. *)
Lemma split_labels_round d ls σ rowss :
  σ !! d = Some (rows_val rowss) → d ∉ ls →
  Forall (λ r, length ls ≤ length r) rowss →
  bind (for_enumerate 0 ls (split_label_field d (length ls)))
    (λ _, if negb (Nat.eqb (length ls) 0)
          then drop_label_columns d (length ls) else ret tt) σ =
    (split_step ls d rowss σ, Ok tt).
Proof.
  intros Hd Hnin Hrows.
  rewrite (bind_ok _ _ _ _ _
             (split_label_fields_inner d (length ls) rowss ls 0 σ Hd Hnin
                (le_n _) Hrows)).
  unfold split_step. destruct ls as [|l ls].
  - simpl. unfold ret. f_equal. symmetry. apply insert_id.
    rewrite Hd. f_equal. unfold rows_val. do 2 f_equal.
    clear. induction rowss as [|r rowss IH]; [done|].
    rewrite fmap_cons, <- IH. f_equal.
    unfold strip. rewrite Nat.sub_0_r. symmetry. apply firstn_all.
  - change (negb (Nat.eqb (length (l :: ls)) 0)) with true. cbv iota.
    apply drop_label_columns_ok; [|simpl; lia].
    rewrite lookup_inserts_fresh; [done|].
    by rewrite label_columns_keys.
Qed.

End SplitLabels.

Section RoundTrip.

Local Close Scope string_scope.

Implicit Types (σ : dict) (d l : string) (rowss : list (list value))
  (c : list value) (cs : list (list value)) (ls ds : list string).

Lemma label_columns_restore σ ls cs n rowss : ∀ k,
  Forall2 (λ l c, σ !! l = Some (VList c)) ls cs →
  (∀ i c, cs !! i = Some c → pick n (k + i) <$> rowss = c) →
  Forall (λ kv, σ !! kv.1 = Some kv.2) (label_columns n k ls rowss).
Proof.
  intros k H. revert k.
  induction H as [|l c ls cs Hl _ IH]; intros k Hpick; simpl; constructor.
  - simpl. rewrite Hl. do 2 f_equal. symmetry.
    rewrite <- (Nat.add_0_r k). by apply Hpick.
  - apply IH. intros i c' Hi.
    replace (S k + i) with (k + S i) by lia. by apply Hpick.
Qed.

(** Splitting right after attaching gives every data field its rows
    back and rewrites every label field with the column it held. *)
Lemma split_after_add (R : string → list (list value)) ls cs ds : ∀ σ,
  NoDup ds → (∀ d, d ∈ ds → d ∉ ls) →
  (∀ d, d ∈ ds → σ !! d = Some (rows_val (add_cols (R d) cs))) →
  Forall2 (λ l c, σ !! l = Some (VList c)) ls cs →
  (∀ d c, d ∈ ds → c ∈ cs → length c = length (R d)) →
  for_each ds (λ d,
    bind (for_enumerate 0 ls (split_label_field d (length ls)))
      (λ _, if negb (Nat.eqb (length ls) 0)
            then drop_label_columns d (length ls) else ret tt)) σ =
    (set_fields (λ d, rows_val (R d)) ds σ, Ok tt).
Proof.
  induction ds as [|d ds IH]; intros σ Hnd Hdis Hrows Hcs Hlen; [done|].
  apply NoDup_cons in Hnd as [Hd Hnd].
  assert (d ∉ ls) as Hdls by (apply Hdis; left).
  assert (length ls = length cs) as Hn by (by eapply Forall2_length).
  assert (Forall (λ c, length c = length (R d)) cs) as Hfit.
  { apply Forall_forall. intros c Hc. apply Hlen; [left|done]. }
  cbn [for_each].
  erewrite bind_ok; cycle 1.
  { apply (split_labels_round d ls σ (add_cols (R d) cs));
      [apply Hrows; left|done|].
    rewrite Hn. apply add_cols_long. }
  unfold split_step. rewrite Hn, strip_add_cols by done.
  rewrite inserts_id; cycle 1.
  { apply (label_columns_restore σ ls cs); [done|].
    intros i c Hi. by apply pick_add_cols. }
  change (set_fields (λ d0, rows_val (R d0)) (d :: ds) σ)
    with (set_fields (λ d0, rows_val (R d0)) ds (<[d:=rows_val (R d)]> σ)).
  rewrite <- Hn. apply IH; [done| | | |].
  - intros d' Hd'. apply Hdis. by right.
  - intros d' Hd'. rewrite lookup_insert_ne by (by intros ->).
    apply Hrows. by right.
  - eapply Forall2_impl; [exact (Forall2_fresh _ _ _ _ Hdls Hcs)|].
    intros l c [Hne Hl]. by rewrite lookup_insert_ne.
  - intros d' c Hd' Hc. apply Hlen; [by right|done].
Qed.

End RoundTrip.

(** C1. On a mapping whose data fields hold rows [R d] and whose label
    fields [ls] hold columns [cs] as long as the rows,
    [add_label_fields_to_data] followed at once by
    [remove_label_fields_from_data] ends with the mapping it started from:
    every data field holds its rows [R d] again and every label field its
    column. *)
Theorem label_fields_round_trip (self : DataProcessor)
    (R : string → list (list value)) (ls : list string)
    (cs : list (list value)) (σ : dict) :
  label_fields (params self) = Some ls →
  NoDup (data_fields self) →
  (∀ d, d ∈ data_fields self → d ∉ ls) →
  (∀ d, d ∈ data_fields self → σ !! d = Some (rows_val (R d))) →
  Forall2 (λ l c, σ !! l = Some (VList c)) ls cs →
  (∀ d c, d ∈ data_fields self → c ∈ cs → length c = length (R d)) →
  ∃ σ1 σ2,
    add_label_fields_to_data self σ = (σ1, Ok RetData)
    ∧ remove_label_fields_from_data self σ1 = (σ2, Ok RetData)
    ∧ σ2 = σ
    ∧ (∀ d, d ∈ data_fields self → σ2 !! d = Some (rows_val (R d)))
    ∧ Forall2 (λ l c, σ2 !! l = Some (VList c)) ls cs.
Proof.
  intros Hls Hnd Hdis Hrows Hcs Hlen.
  set (g1 := λ d, rows_val (add_cols (R d) cs)).
  set (g0 := λ d, rows_val (R d)).
  exists (set_fields g1 (data_fields self) σ), σ.
  split; [|split; [|done]].
  - unfold add_label_fields_to_data. rewrite Hls.
    erewrite bind_ok; [reflexivity|].
    by apply add_label_fields_outer.
  - unfold remove_label_fields_from_data. rewrite Hls.
    erewrite bind_ok; cycle 1.
    { apply (split_after_add R ls cs); [done|done| | |done].
      - intros d Hd. by rewrite lookup_set_fields, decide_True.
      - apply Forall2_lookup_set_fields; [|done].
        intros l Hl Hin. by apply (Hdis l). }
    unfold ret. f_equal. apply map_eq. intros k.
    rewrite !lookup_set_fields. case_decide as Hk; [|done].
    symmetry. by apply Hrows.
Qed.

Definition scored_boxes : DataProcessor :=
  init (ops:=passthrough_ops)
    {| format := "coco"; label_fields := Some ["class_id"; "score"] |} None.

Definition scored_data : dict :=
  <["image" := VArray [100; 200; 3]]>
    (<["bboxes" := VList [example_box; example_box2]]>
       (<["class_id" := VList [VInt 3; VInt 5]]>
          (<["score" := VList [VStr "high"; VStr "low"]]> ∅))).

Lemma label_fields_round_trip_witness :
  ∃ σ1 σ2,
    add_label_fields_to_data scored_boxes scored_data = (σ1, Ok RetData)
    ∧ remove_label_fields_from_data scored_boxes σ1 = (σ2, Ok RetData)
    ∧ σ2 = scored_data
    ∧ (∀ d, d ∈ data_fields scored_boxes →
         σ2 !! d = Some (rows_val [[VInt 10; VInt 10; VInt 50; VInt 50];
                                   [VInt 0; VInt 0; VInt 20; VInt 30]]))
    ∧ Forall2 (λ l c, σ2 !! l = Some (VList c)) ["class_id"; "score"]
        [[VInt 3; VInt 5]; [VStr "high"; VStr "low"]].
Proof.
  apply (label_fields_round_trip scored_boxes
           (λ _, [[VInt 10; VInt 10; VInt 50; VInt 50];
                  [VInt 0; VInt 0; VInt 20; VInt 30]])
           ["class_id"; "score"]
           [[VInt 3; VInt 5]; [VStr "high"; VStr "low"]] scored_data).
  - reflexivity.
  - apply (bool_decide_unpack _). vm_compute. exact I.
  - intros d Hd. apply (bool_decide_unpack _).
    apply list_elem_of_In in Hd. simpl in Hd.
    destruct Hd as [<-|[]]; vm_compute; exact I.
  - intros d Hd. apply list_elem_of_In in Hd. simpl in Hd.
    destruct Hd as [<-|[]]; reflexivity.
  - repeat constructor.
  - intros d c _ Hc. apply list_elem_of_In in Hc. simpl in Hc.
    destruct Hc as [<-|[<-|[]]]; reflexivity.
Defined.

Section LastFieldWins.

Local Close Scope string_scope.

Implicit Types (σ : dict) (d l : string) (ls ds : list string).

Variable Rr : string → list (list value).
Variable ls : list string.

Definition split_steps (ds : list string) (σ : dict) : dict :=
  foldl (λ acc d, split_step ls d (Rr d) acc) σ ds.

Lemma lookup_split_step_other d rowss σ k :
  k ≠ d → k ∉ ls → split_step ls d rowss σ !! k = σ !! k.
Proof.
  intros Hne Hk. unfold split_step.
  rewrite lookup_insert_ne by done.
  apply lookup_inserts_fresh. by rewrite label_columns_keys.
Qed.

Lemma lookup_split_steps_other ds σ k :
  k ∉ ds → k ∉ ls → split_steps ds σ !! k = σ !! k.
Proof.
  revert σ. induction ds as [|d ds IH]; intros σ Hk Hkl; [done|].
  apply not_elem_of_cons in Hk as [Hne Hk].
  change (split_steps (d :: ds) σ)
    with (split_steps ds (split_step ls d (Rr d) σ)).
  rewrite IH by done. by apply lookup_split_step_other.
Qed.

Lemma lookup_split_steps_field ds σ d :
  d ∈ ds → d ∉ ls →
  split_steps ds σ !! d = Some (rows_val (strip (length ls) <$> Rr d)).
Proof.
  induction ds as [|d' ds IH] using rev_ind; intros Hd Hdl.
  - by apply elem_of_nil in Hd.
  - unfold split_steps. rewrite foldl_app. simpl.
    fold (split_steps ds σ).
    destruct (decide (d = d')) as [->|Hne].
    + unfold split_step. apply lookup_insert_eq.
    + rewrite lookup_split_step_other by done.
      apply elem_of_app in Hd as [Hd|Hd]; [by apply IH|].
      apply list_elem_of_In in Hd. simpl in Hd. by destruct Hd as [<-|[]].
Qed.

(** The outer loop of [remove_label_fields_from_data]. *)
Lemma split_labels_outer ds : ∀ σ,
  NoDup ds → (∀ d, d ∈ ds → d ∉ ls) →
  (∀ d, d ∈ ds → σ !! d = Some (rows_val (Rr d))) →
  (∀ d, d ∈ ds → Forall (λ r, length ls ≤ length r) (Rr d)) →
  for_each ds (λ d,
    bind (for_enumerate 0 ls (split_label_field d (length ls)))
      (λ _, if negb (Nat.eqb (length ls) 0)
            then drop_label_columns d (length ls) else ret tt)) σ =
    (split_steps ds σ, Ok tt).
Proof.
  induction ds as [|d ds IH]; intros σ Hnd Hdis Hrows Hlong; [done|].
  apply NoDup_cons in Hnd as [Hd Hnd].
  cbn [for_each].
  erewrite bind_ok; cycle 1.
  { apply (split_labels_round d ls σ (Rr d));
      [apply Hrows; left|apply Hdis; left|apply Hlong; left]. }
  change (split_steps (d :: ds) σ)
    with (split_steps ds (split_step ls d (Rr d) σ)).
  apply IH; [done| | |].
  - intros d' Hd'. apply Hdis. by right.
  - intros d' Hd'. rewrite lookup_split_step_other.
    + apply Hrows. by right.
    + by intros ->.
    + apply Hdis. by right.
  - intros d' Hd'. apply Hlong. by right.
Qed.

End LastFieldWins.

(** C9. With data fields [ds0 ++ [dl]], [remove_label_fields_from_data]
    leaves in every label field the column taken from the rows of the last
    data field [dl]: the columns taken from the rows of the fields of [ds0]
    were written to the same entries before and are gone, while every data
    field has its rows cut back to the coordinates. *)
Theorem remove_label_fields_last_field_wins (self : DataProcessor)
    (Rr : string → list (list value)) (ds0 : list string) (dl : string)
    (ls : list string) (σ : dict) :
  data_fields self = (ds0 ++ [dl])%list →
  label_fields (params self) = Some ls →
  NoDup (ds0 ++ [dl]) → NoDup ls →
  (∀ d, d ∈ (ds0 ++ [dl])%list → d ∉ ls) →
  (∀ d, d ∈ (ds0 ++ [dl])%list → σ !! d = Some (rows_val (Rr d))) →
  (∀ d, d ∈ (ds0 ++ [dl])%list →
        Forall (λ r, (length ls ≤ length r)%nat) (Rr d)) →
  ∃ σ',
    remove_label_fields_from_data self σ = (σ', Ok RetData)
    ∧ (∀ i l, ls !! i = Some l →
         σ' !! l = Some (VList (pick (length ls) i <$> Rr dl)))
    ∧ (∀ d, d ∈ (ds0 ++ [dl])%list →
         σ' !! d = Some (rows_val (strip (length ls) <$> Rr d))).
Proof.
  intros Hds Hls Hnd Hndl Hdis Hrows Hlong.
  exists (split_steps Rr ls (ds0 ++ [dl]) σ). split; [|split].
  - unfold remove_label_fields_from_data. rewrite Hls, Hds.
    erewrite bind_ok; [reflexivity|].
    by apply split_labels_outer.
  - intros i l Hi.
    assert (l ∈ ls) as Hl by (by eapply list_elem_of_lookup_2).
    assert (l ≠ dl) as Hne.
    { intros ->. apply (Hdis dl); [|done]. apply elem_of_app. right. left. }
    unfold split_steps. rewrite foldl_app. simpl. unfold split_step.
    rewrite lookup_insert_ne by done.
    apply lookup_inserts_NoDup.
    + by rewrite label_columns_keys.
    + by apply (label_columns_lookup _ 0).
  - intros d Hd. apply lookup_split_steps_field; [done|by apply Hdis].
Qed.

(** Two box fields whose rows carry different labels. *)
Definition labelled_data : dict :=
  <["image" := VArray [100; 200; 3]]>
    (<["bboxes" :=
         VList [VList [VInt 10; VInt 10; VInt 50; VInt 50; VInt 1; VInt 7]]]>
       (<["bboxes2" :=
            VList [VList [VInt 0; VInt 0; VInt 20; VInt 30; VInt 2; VInt 8]]]>
          ∅)).

Definition labelled_rows (d : string) : list (list value) :=
  if String.eqb d "bboxes"
  then [[VInt 10; VInt 10; VInt 50; VInt 50; VInt 1; VInt 7]]
  else [[VInt 0; VInt 0; VInt 20; VInt 30; VInt 2; VInt 8]].

Lemma remove_label_fields_last_field_wins_witness :
  ∃ σ',
    remove_label_fields_from_data two_box_fields labelled_data =
      (σ', Ok RetData)
    ∧ (∀ i l, ["class_id"; "score"] !! i = Some l →
         σ' !! l = Some (VList (pick 2 i <$>
           [[VInt 0; VInt 0; VInt 20; VInt 30; VInt 2; VInt 8]])))
    ∧ (∀ d, d ∈ ["bboxes"; "bboxes2"] →
         σ' !! d = Some (rows_val (strip 2 <$> labelled_rows d))).
Proof.
  apply (remove_label_fields_last_field_wins two_box_fields labelled_rows
           ["bboxes"] "bboxes2" ["class_id"; "score"] labelled_data).
  - reflexivity.
  - reflexivity.
  - apply (bool_decide_unpack _). vm_compute. exact I.
  - apply (bool_decide_unpack _). vm_compute. exact I.
  - intros d Hd. apply (bool_decide_unpack _).
    apply list_elem_of_In in Hd. simpl in Hd.
    destruct Hd as [<-|[<-|[]]]; vm_compute; exact I.
  - intros d Hd. apply list_elem_of_In in Hd. simpl in Hd.
    destruct Hd as [<-|[<-|[]]]; reflexivity.
  - intros d Hd. apply list_elem_of_In in Hd. simpl in Hd.
    destruct Hd as [<-|[<-|[]]]; repeat constructor; simpl; lia.
Defined.

(** ** Detecting a label column that does not fit *)

(** A loop whose rounds keep an invariant: it completes when every item is
    [good], and stops with the exception [e] at the first item that is
    not. *)
Lemma for_each_first_failure {A} (Inv : dict → Prop) (good : A → Prop)
    `{∀ x, Decision (good x)} (e : exn) (body : A → M unit) (xs : list A) :
  (∀ x σ, x ∈ xs → Inv σ → good x →
          ∃ σ', body x σ = (σ', Ok tt) ∧ Inv σ') →
  (∀ x σ, x ∈ xs → Inv σ → ¬ good x → ∃ σ', body x σ = (σ', Err e)) →
  ∀ σ, Inv σ →
    (Forall good xs → ∃ σ', for_each xs body σ = (σ', Ok tt) ∧ Inv σ')
    ∧ (¬ Forall good xs → ∃ σ', for_each xs body σ = (σ', Err e)).
Proof.
  induction xs as [|x xs IH]; intros Hok Hbad σ Hinv.
  - split; [intros _; by exists σ|intros Hn; destruct Hn; constructor].
  - assert (∀ σ1, Inv σ1 →
      (Forall good xs → ∃ σ', for_each xs body σ1 = (σ', Ok tt) ∧ Inv σ')
      ∧ (¬ Forall good xs → ∃ σ', for_each xs body σ1 = (σ', Err e)))
      as IH'.
    { apply IH.
      - intros x' σ1 Hx'. apply Hok. by right.
      - intros x' σ1 Hx'. apply Hbad. by right. }
    destruct (decide (good x)) as [Hx|Hx].
    + destruct (Hok x σ ltac:(left) Hinv Hx) as (σ1 & Hrun & Hinv1).
      simpl. rewrite (bind_ok _ _ _ _ _ Hrun). split.
      * intros Hall. apply Forall_cons in Hall as [_ Hall].
        by apply IH'.
      * intros Hnall. apply IH'; [done|]. intros Hall. apply Hnall.
        by constructor.
    + destruct (Hbad x σ ltac:(left) Hinv Hx) as (σ1 & Hrun). split.
      * intros Hall. by apply Forall_cons in Hall as [? _].
      * intros _. exists σ1. simpl. by apply bind_err.
Qed.

Section LengthMismatch.

Local Close Scope string_scope.

Implicit Types (σ : dict) (d l k : string) (ls ds : list string).

(** [len(data[k])] when [data[k]] is a list. *)
Definition size_of σ k : option nat :=
  match σ !! k with
  | Some (VList xs) => Some (length xs)
  | _ => None
  end.

(** Every data field holds a list of list rows and every label field a
    list. *)
Definition well_formed ds ls σ : Prop :=
  (∀ d, d ∈ ds → ∃ rowss, σ !! d = Some (rows_val rowss))
  ∧ (∀ l, l ∈ ls → ∃ c, σ !! l = Some (VList c)).

Variables (ds ls : list string) (σ0 : dict).

Definition fits d l : Prop := size_of σ0 d = size_of σ0 l.

Definition keeps_sizes σ : Prop :=
  well_formed ds ls σ ∧ ∀ k, size_of σ k = size_of σ0 k.

Lemma add_label_field_fits σ d l :
  d ∈ ds → l ∈ ls → keeps_sizes σ → fits d l →
  ∃ σ', add_label_field d l σ = (σ', Ok tt) ∧ keeps_sizes σ'.
Proof.
  intros Hd Hl [[Hrows Hcols] Hsize] Hfit.
  destruct (Hrows d Hd) as [rowss Hdv]. destruct (Hcols l Hl) as [c Hlv].
  assert (length c = length rowss) as Hlen.
  { unfold fits in Hfit. rewrite <- !Hsize in Hfit. unfold size_of in Hfit.
    rewrite Hdv, Hlv in Hfit. unfold rows_val in Hfit.
    rewrite length_fmap in Hfit. congruence. }
  eexists. split; [by apply add_label_field_ok|].
  split; [split|].
  - intros d' Hd'. destruct (decide (d' = d)) as [->|Hne].
    + eexists. apply lookup_insert_eq.
    + rewrite lookup_insert_ne by done. by apply Hrows.
  - intros l' Hl'. destruct (decide (l' = d)) as [->|Hne].
    + eexists. apply lookup_insert_eq.
    + rewrite lookup_insert_ne by done. by apply Hcols.
  - intros k. rewrite <- Hsize. unfold size_of.
    destruct (decide (k = d)) as [->|Hne].
    + rewrite lookup_insert_eq, Hdv. unfold rows_val.
      by rewrite !length_fmap, length_add_col.
    + by rewrite lookup_insert_ne.
Qed.

Lemma add_label_field_misfit σ d l :
  d ∈ ds → l ∈ ls → keeps_sizes σ → ¬ fits d l →
  ∃ σ', add_label_field d l σ = (σ', Err (Raise ValueError "")).
Proof.
  intros Hd Hl [[Hrows Hcols] Hsize] Hfit.
  destruct (Hrows d Hd) as [rowss Hdv]. destruct (Hcols l Hl) as [c Hlv].
  exists σ. eapply add_label_field_mismatch; [exact Hdv|exact Hlv|].
  intros Hlen. apply Hfit. unfold fits. rewrite <- !Hsize. unfold size_of.
  rewrite Hdv, Hlv. unfold rows_val. by rewrite Hlen.
Qed.

#[local] Instance fits_dec d l : Decision (fits d l).
Proof. unfold fits. apply _. Defined.

Lemma add_label_fields_rounds σ :
  keeps_sizes σ →
  (Forall (λ d, Forall (fits d) ls) ds →
     ∃ σ', for_each ds (λ d, for_each ls (add_label_field d)) σ = (σ', Ok tt)
           ∧ keeps_sizes σ')
  ∧ (¬ Forall (λ d, Forall (fits d) ls) ds →
     ∃ σ', for_each ds (λ d, for_each ls (add_label_field d)) σ =
             (σ', Err (Raise ValueError ""))).
Proof.
  apply (for_each_first_failure keeps_sizes (λ d, Forall (fits d) ls)).
  - intros d σ1 Hd Hinv Hall.
    by apply (for_each_first_failure keeps_sizes (fits d)
                (Raise ValueError "") (add_label_field d) ls
                (λ l σ2 Hl, add_label_field_fits σ2 d l Hd Hl)
                (λ l σ2 Hl, add_label_field_misfit σ2 d l Hd Hl) σ1 Hinv).
  - intros d σ1 Hd Hinv Hnall.
    by apply (for_each_first_failure keeps_sizes (fits d)
                (Raise ValueError "") (add_label_field d) ls
                (λ l σ2 Hl, add_label_field_fits σ2 d l Hd Hl)
                (λ l σ2 Hl, add_label_field_misfit σ2 d l Hd Hl) σ1 Hinv).
Qed.

End LengthMismatch.

(** C5. On a mapping whose data fields hold lists of rows and whose label
    fields hold lists, [add_label_fields_to_data] raises [ValueError] as
    soon as some data field and some label field hold lists of different
    lengths. *)
Theorem add_label_fields_length_mismatch (self : DataProcessor)
    (ls : list string) (σ : dict) (d l : string) (rows col : list value) :
  label_fields (params self) = Some ls →
  (∀ d', d' ∈ data_fields self → ∃ rowss, σ !! d' = Some (rows_val rowss)) →
  (∀ l', l' ∈ ls → ∃ c, σ !! l' = Some (VList c)) →
  d ∈ data_fields self → l ∈ ls →
  σ !! d = Some (VList rows) → σ !! l = Some (VList col) →
  length rows ≠ length col →
  ∃ σ', add_label_fields_to_data self σ = (σ', Err (Raise ValueError "")).
Proof.
  intros Hls Hrows Hcols Hd Hl Hdv Hlv Hlen.
  destruct (add_label_fields_rounds (data_fields self) ls σ σ) as [_ Hfail].
  { by split. }
  destruct Hfail as [σ' Hrun].
  { intros Hall. apply Hlen.
    assert (fits σ d l) as Hfit.
    { rewrite Forall_forall in Hall. specialize (Hall d Hd).
      rewrite Forall_forall in Hall. by apply Hall. }
    unfold fits, size_of in Hfit. rewrite Hdv, Hlv in Hfit. congruence. }
  exists σ'. unfold add_label_fields_to_data. rewrite Hls.
  by apply bind_err.
Qed.

Lemma add_label_fields_length_mismatch_witness :
  ∃ σ', add_label_fields_to_data two_box_fields uneven_data =
          (σ', Err (Raise ValueError "")).
Proof.
  apply (add_label_fields_length_mismatch two_box_fields
           ["class_id"; "score"] uneven_data "bboxes2" "score"
           [example_box; example_box2] [VInt 9]).
  - reflexivity.
  - intros d' Hd'. apply list_elem_of_In in Hd'. simpl in Hd'.
    destruct Hd' as [<-|[<-|[]]].
    + by exists [[VInt 10; VInt 10; VInt 50; VInt 50]].
    + by exists [[VInt 10; VInt 10; VInt 50; VInt 50];
                 [VInt 0; VInt 0; VInt 20; VInt 30]].
  - intros l' Hl'. apply list_elem_of_In in Hl'. simpl in Hl'.
    destruct Hl' as [<-|[<-|[]]]; by eexists.
  - apply (bool_decide_unpack _). vm_compute. exact I.
  - apply (bool_decide_unpack _). vm_compute. exact I.
  - reflexivity.
  - reflexivity.
  - simpl. lia.
Defined.

(** ** The end-to-end example *)

Definition example_data (channels : list nat) : dict :=
  <["image" := VArray (100 :: 200 :: channels)]>
    (<["bboxes" := VList [example_box]]>
       (<["class_id" := VList [VInt 3]]> ∅)).

(** C7. One 100 by 200 image, data field ["bboxes"], label field
    ["class_id"], format ["albumentations"], one box [[10, 10, 50, 50]]
    labelled [3], and kind-specific operations that pass rows through:
    [preprocess] stores [[[10, 10, 50, 50, 3]]] under ["bboxes"], and
    [postprocess] on the mapping so left gives back the box and the
    label. *)
Theorem end_to_end_example `{ops : DataProcessorOps} (torch : bool)
    (channels : list nat) :
  default_data_name = "bboxes" →
  (∀ v, convert_to_internal_type v = Ok v) →
  (∀ v, convert_to_original_type v = Ok v) →
  (∀ v rows cols name, filter v rows cols name = Ok v) →
  (∀ v rows cols, check v rows cols = Ok tt) →
  let self :=
    init {| format := "albumentations"; label_fields := Some ["class_id"] |}
      None in
  data_fields self = ["bboxes"]
  ∧ ∃ σ1 σ2 r,
    preprocess self (example_data channels) = (σ1, Ok r)
    ∧ σ1 !! "bboxes" =
        Some (VList [VList [VInt 10; VInt 10; VInt 50; VInt 50; VInt 3]])
    ∧ postprocess torch self σ1 = (σ2, Ok RetData)
    ∧ σ2 !! "bboxes" = Some (VList [VList [VInt 10; VInt 10; VInt 50; VInt 50]])
    ∧ σ2 !! "class_id" = Some (VList [VInt 3]).
Proof.
  intros Hname Hint Horig Hfilter Hcheck self.
  assert (∀ d r c dir, check_and_convert self d r c dir = Ok d) as Hcc.
  { intros. rewrite check_and_convert_canonical by done. by rewrite Hcheck. }
  split; [unfold self, init; simpl; by rewrite Hname|].
  eexists _, _, _. split; [|split; [|split; [|split]]].
  - unfold preprocess, add_label_fields_to_data.
    cbn [self init params label_fields data_fields]. rewrite Hname.
    cbn [for_each]. unfold add_label_field, example_data.
    repeat run_step. cbn [Nat.eqb length negb].
    repeat run_step. cbv beta iota.
    repeat run_step. reflexivity.
  - vm_compute. reflexivity.
  - unfold postprocess, remove_label_fields_from_data.
    cbn [self init params label_fields data_fields]. rewrite Hname.
    cbn [for_each for_enumerate length Nat.eqb negb].
    unfold split_label_field, drop_label_columns, get_shape.
    cbn [isinstance_ndarray].
    repeat run_step. cbv beta iota.
    repeat run_step. reflexivity.
  - vm_compute. reflexivity.
  - vm_compute. reflexivity.
Qed.

Lemma end_to_end_example_witness :
  data_fields
    (init (ops:=passthrough_ops)
       {| format := "albumentations"; label_fields := Some ["class_id"] |}
       None) = ["bboxes"]
  ∧ ∃ σ1 σ2 r,
    preprocess (ops:=passthrough_ops)
      (init (ops:=passthrough_ops)
         {| format := "albumentations"; label_fields := Some ["class_id"] |}
         None) (example_data [3]) = (σ1, Ok r)
    ∧ σ1 !! "bboxes" =
        Some (VList [VList [VInt 10; VInt 10; VInt 50; VInt 50; VInt 3]])
    ∧ postprocess (ops:=passthrough_ops) false
        (init (ops:=passthrough_ops)
           {| format := "albumentations"; label_fields := Some ["class_id"] |}
           None) σ1 = (σ2, Ok RetData)
    ∧ σ2 !! "bboxes" = Some (VList [VList [VInt 10; VInt 10; VInt 50; VInt 50]])
    ∧ σ2 !! "class_id" = Some (VList [VInt 3]).
Proof.
  apply (end_to_end_example (ops:=passthrough_ops) false [3]); reflexivity.
Defined.

(** ** What [preprocess] changes and what it returns *)

(** A computation that leaves every entry outside [K] as it found it,
    whether it completes or raises. *)
Definition touches_only {A} (K : list string) (m : M A) : Prop :=
  ∀ σ σ' r, m σ = (σ', r) → ∀ k, k ∉ K → σ' !! k = σ !! k.

(** A computation that can only return [v]. *)
Definition returns_only {A} (v : A) (m : M A) : Prop :=
  ∀ σ σ' r, m σ = (σ', Ok r) → r = v.

Section Frame.

Variable K : list string.

Lemma touches_ret {A} (a : A) : touches_only K (ret a).
Proof. intros σ σ' r [= <- _] k _. done. Qed.

Lemma touches_raise {A} (e : exn) : touches_only K (raise (A:=A) e).
Proof. intros σ σ' r [= <- _] k _. done. Qed.

Lemma touches_lift {A} (x : result A) : touches_only K (lift x).
Proof. intros σ σ' r [= <- _] k _. done. Qed.

Lemma touches_getitem key : touches_only K (getitem key).
Proof.
  intros σ σ' r. unfold getitem.
  destruct (σ !! key); intros [= <- _] k _; done.
Qed.

Lemma touches_setitem key v : key ∈ K → touches_only K (setitem key v).
Proof.
  intros Hkey σ σ' r [= <- _] k Hk.
  apply lookup_insert_ne. by intros ->.
Qed.

Lemma touches_bind {A B} (m : M A) (f : A → M B) :
  touches_only K m → (∀ a, touches_only K (f a)) →
  touches_only K (bind m f).
Proof.
  intros Hm Hf σ σ' r. unfold bind.
  destruct (m σ) as [σ1 [a|e]] eqn:Hrun.
  - intros Hk k Hnin. rewrite (Hf a _ _ _ Hk k Hnin). by eapply Hm.
  - intros [= <- _] k Hnin. by eapply Hm.
Qed.

Lemma touches_for_each {A} (xs : list A) (body : A → M unit) :
  (∀ x, x ∈ xs → touches_only K (body x)) →
  touches_only K (for_each xs body).
Proof.
  induction xs as [|x xs IH]; intros Hbody; [apply touches_ret|].
  simpl. apply touches_bind.
  - apply Hbody. left.
  - intros _. apply IH. intros x' Hx'. apply Hbody. by right.
Qed.

Lemma returns_ret {B} (v : B) : returns_only v (ret v).
Proof. by intros σ σ' r [= _ <-]. Qed.

Lemma returns_bind {A B} (v : B) (m : M A) (f : A → M B) :
  (∀ a, returns_only v (f a)) → returns_only v (bind m f).
Proof.
  intros Hf σ σ' r Hrun.
  apply bind_inv_ok in Hrun as (σ1 & a & _ & Hrun). by eapply Hf.
Qed.

End Frame.

Ltac touches :=
  repeat first
    [ apply touches_ret | apply touches_raise | apply touches_lift
    | apply touches_getitem
    | apply touches_setitem; assumption
    | apply touches_bind; [|intros ?]
    | match goal with
      | |- touches_only _ (let (_, _) := ?p in _) => destruct p
      | |- touches_only _ (if ?b then _ else _) => destruct b
      end ].

Section PreprocessFacts.

Context `{ops : DataProcessorOps}.
Variable self : DataProcessor.

Lemma add_label_fields_touches :
  touches_only (data_fields self) (add_label_fields_to_data self).
Proof.
  unfold add_label_fields_to_data.
  destruct (label_fields (params self)) as [fields|]; touches.
  apply touches_for_each. intros d Hd.
  apply touches_for_each. intros l _.
  unfold add_label_field. touches.
Qed.

Lemma preprocess_touches :
  touches_only (data_fields self) (preprocess self).
Proof.
  unfold preprocess. touches; [apply add_label_fields_touches|].
  apply touches_for_each. intros d Hd. touches.
Qed.

Lemma preprocess_returns_none : returns_only RetNone (preprocess self).
Proof.
  unfold preprocess.
  apply returns_bind; intros _. apply returns_bind; intros image.
  apply returns_bind; intros shape. apply returns_bind; intros [rows cols].
  apply returns_bind; intros _. apply returns_ret.
Qed.

End PreprocessFacts.

(** C2, as the code has it.  [preprocess] works on the caller's mapping in
    place: whether it completes or raises, the mapping it leaves differs
    from the one it was given at most in the entries of the data fields;
    and when it completes it returns [None], not the mapping. *)
Theorem preprocess_in_place_returns_none `{ops : DataProcessorOps}
    (self : DataProcessor) (σ σ' : dict) (res : result returned_ref) :
  preprocess self σ = (σ', res) →
  (∀ k, k ∉ data_fields self → σ' !! k = σ !! k)
  ∧ (∀ r, res = Ok r → r = RetNone).
Proof.
  intros Hrun. split.
  - by eapply preprocess_touches.
  - intros r ->. by eapply preprocess_returns_none.
Qed.

Definition canonical_boxes : DataProcessor :=
  init (ops:=passthrough_ops)
    {| format := "albumentations"; label_fields := Some ["class_id"] |} None.

Definition preprocessed_example : dict :=
  <["bboxes" := VList [VList [VInt 10; VInt 10; VInt 50; VInt 50; VInt 3]]]>
    (example_data [3]).

Lemma preprocess_in_place_returns_none_witness :
  (∀ k, k ∉ data_fields canonical_boxes →
        preprocessed_example !! k = example_data [3] !! k)
  ∧ (∀ r, Ok RetNone = Ok r → r = RetNone).
Proof.
  apply (preprocess_in_place_returns_none (ops:=passthrough_ops)
           canonical_boxes (example_data [3]) preprocessed_example
           (Ok RetNone)).
  vm_compute. reflexivity.
Defined.

(** The claim that [preprocess] returns the mapping fails on the
    end-to-end example: the call completes and returns [None]. *)
Lemma preprocess_returns_mapping_counterexample :
  preprocess (ops:=passthrough_ops) canonical_boxes (example_data [3]) =
    (preprocessed_example, Ok RetNone)
  ∧ ¬ (∃ σ', preprocess (ops:=passthrough_ops) canonical_boxes
               (example_data [3]) = (σ', Ok RetData)).
Proof.
  split; [vm_compute; reflexivity|].
  intros [σ' Hrun]. apply preprocess_returns_none in Hrun. discriminate.
Qed.


(** * Further properties of the module *)

(** ** [format_args] *)

Section FormatArgs.

(** [str(v)] for the values that are not strings. *)
Variable py_str : value → string.

(** [", ".join(xs)] for any separator *)
Fixpoint join (sep : string) (xs : list string) : string :=
  match xs with
  | [] => ""
  | [x] => x
  | x :: xs' => x ++ sep ++ join sep xs'
  end.

(** One [f"{k}={v_formatted}"] *)
Definition format_arg (kv : string * value) : string :=
  let v_formatted :=
    match kv.2 with
    | VStr s => "'" ++ s ++ "'"
    | v => py_str v
    end in
  kv.1 ++ "=" ++ v_formatted.

(** [args_dict] is a dict, given by its items in insertion order. *)
Definition format_args (args_dict : list (string * value)) : string :=
  join ", " (format_arg <$> args_dict).

Lemma string_app_assoc (a b c : string) : (a ++ b) ++ c = a ++ b ++ c.
Proof.
  induction a as [|ch a IH]; [done|].
  change (String ch ((a ++ b) ++ c) = String ch (a ++ b ++ c)).
  by f_equal.
Qed.

Lemma join_app sep (xs ys : list string) :
  xs ≠ [] → ys ≠ [] →
  join sep (xs ++ ys) = join sep xs ++ sep ++ join sep ys.
Proof.
  intros Hxs Hys. induction xs as [|x xs IH]; [done|].
  destruct xs as [|x' xs].
  - simpl. by destruct ys.
  - change (join sep ((x :: x' :: xs) ++ ys))
      with (x ++ sep ++ join sep ((x' :: xs) ++ ys)).
    rewrite IH by done.
    change (join sep (x :: x' :: xs)) with (x ++ sep ++ join sep (x' :: xs)).
    by rewrite !string_app_assoc.
Qed.

End FormatArgs.

(** X1. [format_args] of the items of two non-empty dicts, one after the
    other, is the two formatted strings joined by [", "]; of no item it is
    the empty string; and a string value is put between single quotes. *)
Theorem format_args_app (py_str : value → string)
    (a b : list (string * value)) :
  format_args py_str [] = ""
  ∧ (∀ k s, format_args py_str [(k, VStr s)] = k ++ "='" ++ s ++ "'")
  ∧ (a ≠ [] → b ≠ [] →
     format_args py_str (a ++ b) =
       format_args py_str a ++ ", " ++ format_args py_str b).
Proof.
  split; [done|split; [done|]].
  intros Ha Hb. unfold format_args. rewrite fmap_app.
  apply join_app; by destruct a, b.
Qed.

Lemma format_args_app_witness :
  format_args (λ _, "3") [("format", VStr "coco"); ("min_area", VInt 3)] =
    "format='coco', min_area=3".
Proof.
  apply (proj2 (proj2 (format_args_app (λ _, "3")
                         [("format", VStr "coco")] [("min_area", VInt 3)])));
    discriminate.
Defined.

(** ** [DataProcessor.__init__] *)

(** X2. The data fields of a processor are its default data name, which
    comes first, and the keys that [additional_targets] maps to that
    name; the parameters are kept as given. *)
Theorem init_data_fields `{ops : DataProcessorOps} (p : Params)
    (additional_targets : option (list (string * string))) (k : string) :
  params (init p additional_targets) = p
  ∧ data_fields (init p additional_targets) !! 0%nat = Some default_data_name
  ∧ (k ∈ data_fields (init p additional_targets) ↔
       k = default_data_name
       ∨ ∃ items, additional_targets = Some items
                  ∧ (k, default_data_name) ∈ items).
Proof.
  split; [done|split; [done|]].
  unfold init. cbn [data_fields]. rewrite elem_of_cons.
  destruct additional_targets as [items|].
  - split.
    + intros [->|Hin]; [by left|right]. exists items. split; [done|].
      apply list_elem_of_fmap in Hin as ([k' v] & -> & Hin).
      apply list_elem_of_In, filter_In in Hin as [Hin Heq].
      apply String.eqb_eq in Heq. simpl in Heq. subst v.
      by apply list_elem_of_In.
    + intros [->|(items' & [= <-] & Hin)]; [by left|right].
      apply list_elem_of_fmap. exists (k, default_data_name). split; [done|].
      apply list_elem_of_In, filter_In. split; [by apply list_elem_of_In|].
      apply String.eqb_refl.
  - split; [intros [->|Hin]; [by left|by apply elem_of_nil in Hin]|].
    intros [->|(items & [=] & _)]. by left.
Qed.

Lemma init_data_fields_witness :
  "bboxes2" ∈ data_fields two_box_fields.
Proof.
  apply (proj2 (proj2 (init_data_fields (ops:=passthrough_ops)
           {| format := "albumentations";
              label_fields := Some ["class_id"; "score"] |}
           (Some [("bboxes2", "bboxes"); ("mask2", "mask")]) "bboxes2"))).
  right. eexists. split; [reflexivity|].
  apply (bool_decide_unpack _). vm_compute. exact I.
Defined.

Lemma NoDup_filter_keys (f : string * string → bool)
    (items : list (string * string)) :
  NoDup items.*1 → NoDup (List.filter f items).*1.
Proof.
  induction items as [|[k v] items IH]; intros Hnd; [constructor|].
  apply NoDup_cons in Hnd as [Hk Hnd]. simpl.
  destruct (f (k, v)); [|by apply IH].
  rewrite fmap_cons. apply NoDup_cons. split; [|by apply IH].
  intros Hin. apply Hk.
  apply list_elem_of_fmap in Hin as (kv & Heq & Hin).
  apply list_elem_of_fmap. exists kv. split; [done|].
  apply list_elem_of_In. apply list_elem_of_In, filter_In in Hin. tauto.
Qed.

(** X3. [additional_targets] being a dict, its keys are distinct; the data
    fields of the processor are then distinct exactly when the dict does
    not map the default data name to itself.  (When it does, the default
    name is listed, and processed, twice.) *)
Theorem init_data_fields_NoDup `{ops : DataProcessorOps} (p : Params)
    (items : list (string * string)) :
  NoDup items.*1 →
  (NoDup (data_fields (init p (Some items))) ↔
     (default_data_name, default_data_name) ∉ items).
Proof.
  intros Hnd. unfold init. cbn [data_fields]. rewrite NoDup_cons. split.
  - intros [Hfresh _] Hin. apply Hfresh.
    apply list_elem_of_fmap. exists (default_data_name, default_data_name).
    split; [done|]. apply list_elem_of_In, filter_In.
    split; [by apply list_elem_of_In|apply String.eqb_refl].
  - intros Hnin. split; [|by apply NoDup_filter_keys].
    intros Hin. apply Hnin.
    apply list_elem_of_fmap in Hin as ([k v] & Hk & Hin). simpl in Hk. subst k.
    apply list_elem_of_In, filter_In in Hin as [Hin Heq].
    apply String.eqb_eq in Heq. simpl in Heq. subst v.
    by apply list_elem_of_In.
Qed.

Lemma init_data_fields_NoDup_witness :
  NoDup (data_fields two_box_fields).
Proof.
  apply (proj2 (init_data_fields_NoDup (ops:=passthrough_ops)
           {| format := "albumentations";
              label_fields := Some ["class_id"; "score"] |}
           [("bboxes2", "bboxes"); ("mask2", "mask")]
           ltac:(apply (bool_decide_unpack _); vm_compute; exact I))).
  apply (bool_decide_unpack _). vm_compute. exact I.
Defined.

(** ** More on [get_shape] *)

(** X4. On an array with fewer than two dimensions [get_shape] fails at
    the unpacking of [img.shape[:2]], with a [ValueError] and not with the
    [RuntimeError] of the unsupported types. *)
Theorem get_shape_short_array (torch : bool) (shape : list nat) :
  (length shape < 2)%nat →
  get_shape torch (VArray shape) = Err (Raise ValueError "").
Proof.
  intros Hlen. destruct shape as [|a [|b rest]]; [done|done|].
  simpl in Hlen. lia.
Qed.

Lemma get_shape_short_array_witness :
  get_shape true (VArray [4]) = Err (Raise ValueError "").
Proof. apply (get_shape_short_array true [4]). simpl. lia. Defined.

(** X5. [get_shape] returns only for arrays and tensors: for an array what
    it returns is the pair of the first two dimensions, for a tensor (and
    then [torch] is importable) the last dimensions of the tensor, two of
    them at most. *)
Theorem get_shape_returns (torch : bool) (img : value) (size : list nat) :
  get_shape torch img = Ok size →
  (∃ rows cols rest, img = VArray (rows :: cols :: rest) ∧ size = [rows; cols])
  ∨ (torch = true
     ∧ ∃ shape, img = VTensor shape ∧ size = last2 shape
                ∧ (length size ≤ 2)%nat).
Proof.
  unfold get_shape. destruct img as [| | | |shape|shape|]; simpl;
    try (rewrite andb_false_r; discriminate).
  - destruct shape as [|a [|b rest]]; simpl; try discriminate.
    intros [= <-]. left. by exists a, b, rest.
  - destruct torch; simpl; [|discriminate].
    intros [= <-]. right. split; [done|]. exists shape.
    split; [done|split; [done|]].
    unfold last2. rewrite length_drop. lia.
Qed.

Lemma get_shape_returns_witness :
  (∃ rows cols rest,
      VTensor [7] = VArray (rows :: cols :: rest) ∧ [7] = [rows; cols])
  ∨ (true = true
     ∧ ∃ shape, VTensor [7] = VTensor shape ∧ [7] = last2 shape
                ∧ (length [7] ≤ 2)%nat).
Proof. apply (get_shape_returns true (VTensor [7]) [7]). reflexivity. Defined.

(** ** More on [check_and_convert] *)

(** X6. Whatever the format, converting rows ["to"] and the result back
    ["from"] gives the rows again, as soon as [check] accepts them and the
    two conversions of the processor undo each other on them. *)
Theorem check_and_convert_to_from `{ops : DataProcessorOps}
    (self : DataProcessor) (data converted : value) (rows cols : nat) :
  check data rows cols = Ok tt →
  convert_to_albumentations data rows cols = Ok converted →
  convert_from_albumentations converted rows cols = Ok data →
  ∃ internal,
    check_and_convert self data rows cols "to" = Ok internal
    ∧ check_and_convert self internal rows cols "from" = Ok data.
Proof.
  intros Hcheck Hto Hfrom.
  destruct (decide (format (params self) = "albumentations")) as [Hfmt|Hfmt].
  - exists data. rewrite !check_and_convert_canonical by done.
    by rewrite Hcheck.
  - exists converted.
    by rewrite check_and_convert_to, check_and_convert_from.
Qed.

Lemma check_and_convert_to_from_witness :
  ∃ internal,
    check_and_convert (ops:=passthrough_ops) coco_boxes
      (VList [example_box]) 100 200 "to" = Ok internal
    ∧ check_and_convert (ops:=passthrough_ops) coco_boxes internal
        100 200 "from" = Ok (VList [example_box]).
Proof.
  apply (check_and_convert_to_from (ops:=passthrough_ops) coco_boxes
           (VList [example_box]) (VList [example_box]) 100 200);
    reflexivity.
Defined.

(** ** More on [ensure_internal_format] *)

(** The decorated function: [functools.wraps] gives the wrapper the
    [__name__] of the function it wraps. *)
Definition wrapped {BatchInternalType Args : Type}
    (check_consistency : BatchInternalType → result unit)
    (func : callable BatchInternalType Args)
    : callable BatchInternalType Args :=
  Callable (func_name func) (ensure_internal_format check_consistency func).

(** X7. Decorating twice changes nothing: the decorated function keeps
    the name of the function it wraps, passes on the exceptions that
    function raises, and on every argument a doubly decorated function
    returns or raises what the decorated function does. *)
Theorem ensure_internal_format_twice {BatchInternalType Args : Type}
    (check_consistency : BatchInternalType → result unit)
    (func : callable BatchInternalType Args) (args : Args) :
  func_name (wrapped check_consistency func) = func_name func
  ∧ (∀ e, call func args = Err e →
          call (wrapped check_consistency func) args = Err e)
  ∧ call (wrapped check_consistency (wrapped check_consistency func)) args =
      call (wrapped check_consistency func) args.
Proof.
  split; [done|split].
  - intros e. apply ensure_internal_format_propagates.
  - unfold wrapped. cbn [call]. unfold ensure_internal_format.
    cbn [call func_name].
    destruct (call func args) as [[b|v]|e]; cbn [rbind]; [|done|done].
    destruct (check_consistency b) as [[]|e] eqn:Hcheck; cbn [rbind]; [|done].
    by rewrite Hcheck.
Qed.

Lemma ensure_internal_format_twice_witness :
  call (wrapped example_check_consistency example_flip) ([1; 2]%Z, [3]%Z) =
    Err (Raise ValueError "inconsistent batch").
Proof.
  rewrite <- (proj2 (proj2 (ensure_internal_format_twice
                              example_check_consistency example_flip
                              ([1; 2]%Z, [3]%Z)))).
  reflexivity.
Defined.

(** ** More on the two label methods *)

Lemma for_each_skip {A} (xs : list A) (body : A → M unit) (σ : dict) :
  (∀ x, x ∈ xs → body x σ = (σ, Ok tt)) →
  for_each xs body σ = (σ, Ok tt).
Proof.
  induction xs as [|x xs IH]; intros Hbody; [done|].
  simpl. rewrite (bind_ok _ _ _ _ _ (Hbody x ltac:(left))).
  apply IH. intros x' Hx'. apply Hbody. by right.
Qed.

(** X8. With no label field declared, [label_fields] being [None] or
    empty, both label methods return the mapping as they found it,
    whatever it holds: they do not even read the data fields. *)
Theorem no_label_fields_noop (self : DataProcessor) (σ : dict) :
  label_fields (params self) = None ∨ label_fields (params self) = Some [] →
  add_label_fields_to_data self σ = (σ, Ok RetData)
  ∧ remove_label_fields_from_data self σ = (σ, Ok RetData).
Proof.
  unfold add_label_fields_to_data, remove_label_fields_from_data.
  intros [->| ->]; [done|]. split.
  - by rewrite (bind_ok _ _ _ _ _ (for_each_skip _ _ σ (λ _ _, eq_refl))).
  - by rewrite (bind_ok _ _ _ _ _ (for_each_skip _ _ σ (λ _ _, eq_refl))).
Qed.

Definition unlabelled_boxes : DataProcessor :=
  init (ops:=passthrough_ops)
    {| format := "coco"; label_fields := Some [] |} None.

Lemma no_label_fields_noop_witness :
  add_label_fields_to_data unlabelled_boxes ∅ = (∅, Ok RetData)
  ∧ remove_label_fields_from_data unlabelled_boxes ∅ = (∅, Ok RetData).
Proof.
  apply (no_label_fields_noop unlabelled_boxes ∅). right. reflexivity.
Defined.

(** X9. With a label field declared, [add_label_fields_to_data] raises
    [KeyError] for the first data field when the mapping lacks it, and
    for the first label field when the mapping has the data field (a
    list) but lacks the label field; the mapping is left as it was. *)
Theorem add_label_fields_missing_key (self : DataProcessor)
    (d : string) (ds : list string) (l : string) (ls : list string)
    (σ : dict) :
  data_fields self = d :: ds →
  label_fields (params self) = Some (l :: ls) →
  (σ !! d = None →
     add_label_fields_to_data self σ =
       (σ, Err (Raise KeyError ("'" ++ d ++ "'"))))
  ∧ (∀ rows, σ !! d = Some (VList rows) → σ !! l = None →
     add_label_fields_to_data self σ =
       (σ, Err (Raise KeyError ("'" ++ l ++ "'")))).
Proof.
  intros Hds Hls. unfold add_label_fields_to_data. rewrite Hds, Hls.
  cbn [for_each]. unfold add_label_field. split.
  - intros Hd. do 4 apply bind_err. unfold getitem. by rewrite Hd.
  - intros rows Hd Hl. do 3 apply bind_err.
    rewrite (bind_getitem _ _ _ _ Hd).
    rewrite (bind_lift_ok _ _ _ (length rows)) by done.
    apply bind_err. unfold getitem. by rewrite Hl.
Qed.

Lemma add_label_fields_missing_key_witness :
  add_label_fields_to_data scored_boxes ∅ = (∅, Err (Raise KeyError "'bboxes'"))
  ∧ add_label_fields_to_data scored_boxes {["bboxes" := VList []]} =
      ({["bboxes" := VList []]}, Err (Raise KeyError "'class_id'")).
Proof.
  split.
  - apply (proj1 (add_label_fields_missing_key scored_boxes
                    "bboxes" [] "class_id" ["score"] ∅ eq_refl eq_refl)).
    reflexivity.
  - apply (proj2 (add_label_fields_missing_key scored_boxes
                    "bboxes" [] "class_id" ["score"]
                    {["bboxes" := VList []]} eq_refl eq_refl) []);
      reflexivity.
Defined.

(** The label values of row [i], one per column. *)
Definition labels_at (cs : list (list value)) (i : nat) : list value :=
  (λ c, default VNone (c !! i)) <$> cs.

Lemma add_cols_lookup (rowss : list (list value)) (cs : list (list value))
    (i : nat) (r : list value) :
  Forall (λ c, length c = length rowss) cs →
  rowss !! i = Some r →
  add_cols rowss cs !! i = Some (r ++ labels_at cs i)%list.
Proof.
  intros Hcs Hr. induction cs as [|c cs IH] using rev_ind.
  - simpl. by rewrite app_nil_r.
  - apply Forall_app in Hcs as [Hcs Hc]. apply Forall_inv in Hc.
    rewrite add_cols_snoc. unfold add_col. rewrite lookup_zip_with.
    rewrite IH by done. simpl.
    destruct (lookup_lt_is_Some_2 c i) as [v Hv].
    { rewrite Hc. by eapply lookup_lt_Some. }
    rewrite Hv. simpl. unfold labels_at. rewrite fmap_app. simpl.
    by rewrite Hv, app_assoc.
Qed.

(** X10. When every label column is as long as the rows of every data
    field, [add_label_fields_to_data] completes, leaves every entry other
    than the data fields alone, keeps the number of rows of each data
    field, and extends row [i] by the values the label columns hold at
    [i], in the order of [label_fields]. *)
Theorem add_label_fields_attaches (self : DataProcessor)
    (R : string → list (list value)) (ls : list string)
    (cs : list (list value)) (σ : dict) :
  label_fields (params self) = Some ls →
  NoDup (data_fields self) →
  (∀ d, d ∈ data_fields self → d ∉ ls) →
  (∀ d, d ∈ data_fields self → σ !! d = Some (rows_val (R d))) →
  Forall2 (λ l c, σ !! l = Some (VList c)) ls cs →
  (∀ d c, d ∈ data_fields self → c ∈ cs → length c = length (R d)) →
  ∃ σ',
    add_label_fields_to_data self σ = (σ', Ok RetData)
    ∧ (∀ k, k ∉ data_fields self → σ' !! k = σ !! k)
    ∧ (∀ d, d ∈ data_fields self →
         ∃ rows', σ' !! d = Some (rows_val rows')
                  ∧ length rows' = length (R d)
                  ∧ ∀ i r, R d !! i = Some r →
                      rows' !! i = Some (r ++ labels_at cs i)%list).
Proof.
  intros Hls Hnd Hdis Hrows Hcs Hlen.
  exists (set_fields (λ d, rows_val (add_cols (R d) cs)) (data_fields self) σ).
  split; [|split].
  - unfold add_label_fields_to_data. rewrite Hls.
    erewrite bind_ok; [reflexivity|]. by apply add_label_fields_outer.
  - intros k Hk. by rewrite lookup_set_fields, decide_False.
  - intros d Hd. exists (add_cols (R d) cs).
    assert (Forall (λ c, length c = length (R d)) cs) as Hfit.
    { apply Forall_forall. intros c Hc. by apply Hlen. }
    split; [by rewrite lookup_set_fields, decide_True|].
    split; [by apply length_add_cols|].
    intros i r Hi. by apply add_cols_lookup.
Qed.

Lemma add_label_fields_attaches_witness :
  ∃ σ',
    add_label_fields_to_data scored_boxes scored_data = (σ', Ok RetData)
    ∧ (∀ k, k ∉ data_fields scored_boxes → σ' !! k = scored_data !! k)
    ∧ (∀ d, d ∈ data_fields scored_boxes →
         ∃ rows', σ' !! d = Some (rows_val rows')
                  ∧ length rows' = 2%nat
                  ∧ ∀ i r,
                      [[VInt 10; VInt 10; VInt 50; VInt 50];
                       [VInt 0; VInt 0; VInt 20; VInt 30]] !! i = Some r →
                      rows' !! i =
                        Some (r ++ labels_at [[VInt 3; VInt 5];
                                              [VStr "high"; VStr "low"]] i)%list).
Proof.
  apply (add_label_fields_attaches scored_boxes
           (λ _, [[VInt 10; VInt 10; VInt 50; VInt 50];
                  [VInt 0; VInt 0; VInt 20; VInt 30]])
           ["class_id"; "score"]
           [[VInt 3; VInt 5]; [VStr "high"; VStr "low"]] scored_data).
  - reflexivity.
  - apply (bool_decide_unpack _). vm_compute. exact I.
  - intros d Hd. apply (bool_decide_unpack _).
    apply list_elem_of_In in Hd. simpl in Hd.
    destruct Hd as [<-|[]]; vm_compute; exact I.
  - intros d Hd. apply list_elem_of_In in Hd. simpl in Hd.
    destruct Hd as [<-|[]]; reflexivity.
  - repeat constructor.
  - intros d c _ Hc. apply list_elem_of_In in Hc. simpl in Hc.
    destruct Hc as [<-|[<-|[]]]; reflexivity.
Defined.

Section ShortRows.

Local Close Scope string_scope.

Lemma py_getitem_short n (r : list value) :
  length r < n →
  py_getitem (VList r) (- Z.of_nat n + Z.of_nat 0) = Err (Raise IndexError "").
Proof.
  intros Hlen. unfold py_getitem, py_iter, rbind, norm_index.
  destruct (Z.leb_spec 0 (- Z.of_nat n + Z.of_nat 0)) as [?|_]; [lia|].
  destruct (Z.leb_spec (- Z.of_nat (length r))
              (- Z.of_nat n + Z.of_nat 0)) as [?|_]; [lia|done].
Qed.

Lemma rmap_pick_short n (rowss : list (list value)) :
  Exists (λ r, length r < n) rowss →
  rmap (λ bbox, py_getitem bbox (- Z.of_nat n + Z.of_nat 0))
       (VList <$> rowss) = Err (Raise IndexError "").
Proof.
  intros Hex. assert (0 < n) as Hn.
  { apply Exists_exists in Hex as (r0 & _ & ?). lia. }
  induction rowss as [|r rowss IH].
  - by apply Exists_nil in Hex.
  - rewrite fmap_cons. cbn [rmap].
    destruct (decide (length r < n)) as [Hshort|Hlong].
    + by rewrite py_getitem_short.
    + rewrite py_getitem_pick by lia. cbn [rbind].
      apply Exists_cons in Hex as [?|Hex]; [done|].
      by rewrite IH.
Qed.

End ShortRows.

(** X11. [remove_label_fields_from_data] takes the labels from the end of
    each row: when a row of the first data field has fewer items than
    there are label fields, the call raises [IndexError] and leaves the
    mapping as it was. *)
Theorem remove_label_fields_short_row (self : DataProcessor)
    (d : string) (ds : list string) (l : string) (ls : list string)
    (σ : dict) (rowss : list (list value)) (r : list value) :
  data_fields self = d :: ds →
  label_fields (params self) = Some (l :: ls) →
  σ !! d = Some (rows_val rowss) →
  r ∈ rowss → (length r < length (l :: ls))%nat →
  remove_label_fields_from_data self σ = (σ, Err (Raise IndexError "")).
Proof.
  intros Hds Hls Hd Hr Hlen.
  unfold remove_label_fields_from_data. rewrite Hds, Hls.
  cbn [for_each for_enumerate]. do 4 apply bind_err.
  unfold split_label_field.
  rewrite (bind_getitem _ _ _ _ Hd). unfold rows_val.
  rewrite (bind_lift_ok _ _ _ (VList <$> rowss)) by done.
  apply bind_lift_err. apply rmap_pick_short.
  apply Exists_exists. by exists r.
Qed.

Lemma remove_label_fields_short_row_witness :
  remove_label_fields_from_data scored_boxes
    {["bboxes" := VList [example_box; VList [VInt 1]]]} =
    ({["bboxes" := VList [example_box; VList [VInt 1]]]},
     Err (Raise IndexError "")).
Proof.
  apply (remove_label_fields_short_row scored_boxes
           "bboxes" [] "class_id" ["score"]
           {["bboxes" := VList [example_box; VList [VInt 1]]]}
           [[VInt 10; VInt 10; VInt 50; VInt 50]; [VInt 1]] [VInt 1]).
  - reflexivity.
  - reflexivity.
  - reflexivity.
  - apply list_elem_of_In. simpl. right. left. reflexivity.
  - simpl. lia.
Defined.

(** ** What the label methods and [postprocess] change and return *)

Lemma touches_for_enumerate {A} (K : list string) (xs : list A)
    (body : nat → A → M unit) :
  (∀ i x, x ∈ xs → touches_only K (body i x)) →
  ∀ start, touches_only K (for_enumerate start xs body).
Proof.
  induction xs as [|x xs IH]; intros Hbody start; [apply touches_ret|].
  simpl. apply touches_bind.
  - apply Hbody. left.
  - intros _. apply IH. intros i x' Hx'. apply Hbody. by right.
Qed.

(** The names of the label fields a processor declares. *)
Definition label_names (self : DataProcessor) : list string :=
  default [] (label_fields (params self)).

Lemma remove_label_fields_touches (self : DataProcessor) :
  touches_only (data_fields self ++ label_names self)
    (remove_label_fields_from_data self).
Proof.
  unfold remove_label_fields_from_data, label_names.
  destruct (label_fields (params self)) as [fields|]; simpl; touches.
  apply touches_for_each. intros d Hd.
  assert (d ∈ (data_fields self ++ fields)%list)
    by (apply elem_of_app; by left).
  apply touches_bind.
  - apply touches_for_enumerate. intros i l Hl.
    assert (l ∈ (data_fields self ++ fields)%list)
      by (apply elem_of_app; by right).
    unfold split_label_field. touches.
  - intros _. unfold drop_label_columns. touches.
Qed.

Lemma remove_label_fields_returns (self : DataProcessor) :
  returns_only RetData (remove_label_fields_from_data self).
Proof.
  unfold remove_label_fields_from_data.
  destruct (label_fields (params self)); [|apply returns_ret].
  apply returns_bind. intros _. apply returns_ret.
Qed.

(** X12. The two label methods work on the caller's mapping and, also
    when they raise, change nothing but what they are about:
    [add_label_fields_to_data] only the entries of the data fields,
    [remove_label_fields_from_data] only those and the entries of the
    label fields.  What they return when they complete is the mapping. *)
Theorem label_methods_frame (self : DataProcessor) (σ σ' : dict)
    (res : result returned_ref) :
  (add_label_fields_to_data self σ = (σ', res) →
     (∀ k, k ∉ data_fields self → σ' !! k = σ !! k)
     ∧ (∀ r, res = Ok r → r = RetData))
  ∧ (remove_label_fields_from_data self σ = (σ', res) →
     (∀ k, k ∉ data_fields self → k ∉ label_names self → σ' !! k = σ !! k)
     ∧ (∀ r, res = Ok r → r = RetData)).
Proof.
  split; intros Hrun; split.
  - by eapply add_label_fields_touches.
  - intros r ->. revert Hrun. unfold add_label_fields_to_data.
    destruct (label_fields (params self)).
    + intros Hrun. apply bind_inv_ok in Hrun as (? & ? & _ & [= _ <-]). done.
    + by intros [= _ <-].
  - intros k Hd Hl. eapply remove_label_fields_touches; [done|].
    by intros [?|?]%elem_of_app.
  - intros r ->. by eapply remove_label_fields_returns.
Qed.

Lemma label_methods_frame_witness :
  (∀ k, k ∉ data_fields two_box_fields →
      (<["bboxes2" := VList [example_box; example_box2]]>
         (<["bboxes" :=
              VList [VList [VInt 10; VInt 10; VInt 50; VInt 50; VInt 3; VInt 9]]]>
            uneven_data)) !! k = uneven_data !! k)
  ∧ (∀ r, Err (Raise ValueError "") = Ok r → r = RetData).
Proof.
  apply (proj1 (label_methods_frame two_box_fields uneven_data
                  (<["bboxes2" := VList [example_box; example_box2]]>
                     (<["bboxes" :=
                          VList [VList [VInt 10; VInt 10; VInt 50; VInt 50;
                                        VInt 3; VInt 9]]]>
                        uneven_data))
                  (Err (Raise ValueError "")))).
  vm_compute. reflexivity.
Defined.

(** ** [postprocess] and [preprocess] as a whole *)

(** X13. [postprocess] reads the shape of the image before anything else:
    without an ["image"] entry it raises [KeyError], and with an image
    that is neither an array nor a tensor the [RuntimeError] of
    [get_shape]; in both cases no data field has been filtered or
    converted, the mapping is as it was. *)
Theorem postprocess_image_errors `{ops : DataProcessorOps} (torch : bool)
    (self : DataProcessor) (σ : dict) :
  (σ !! "image" = None →
     postprocess torch self σ = (σ, Err (Raise KeyError "'image'")))
  ∧ (∀ img, σ !! "image" = Some img →
       isinstance_ndarray img = false → is_tensor img = false →
       postprocess torch self σ =
         (σ, Err (Raise RuntimeError (unsupported_image_msg img)))).
Proof.
  unfold postprocess. split.
  - intros Himg. apply bind_err. unfold getitem. by rewrite Himg.
  - intros img Himg Harr Hten. rewrite (bind_getitem _ _ _ _ Himg).
    apply bind_lift_err. unfold get_shape.
    by rewrite Harr, Hten, andb_false_r.
Qed.

Lemma postprocess_image_errors_witness :
  postprocess (ops:=passthrough_ops) true canonical_boxes
    {["image" := VObj "PIL.Image.Image"]} =
    ({["image" := VObj "PIL.Image.Image"]},
     Err (Raise RuntimeError
            "Albumentations supports only numpy.ndarray and torch.Tensor data type for image. Got: <class 'PIL.Image.Image'>")).
Proof.
  apply (proj2 (postprocess_image_errors (ops:=passthrough_ops) true
                  canonical_boxes {["image" := VObj "PIL.Image.Image"]})
           (VObj "PIL.Image.Image"));
    reflexivity.
Defined.

(** X14. [postprocess] works on the caller's mapping and, also when it
    raises, changes nothing but the entries of the data fields and of the
    label fields; when it completes it returns the mapping (where
    [preprocess] returns [None]). *)
Theorem postprocess_frame `{ops : DataProcessorOps} (torch : bool)
    (self : DataProcessor) (σ σ' : dict) (res : result returned_ref) :
  postprocess torch self σ = (σ', res) →
  (∀ k, k ∉ data_fields self → k ∉ label_names self → σ' !! k = σ !! k)
  ∧ (∀ r, res = Ok r → r = RetData).
Proof.
  intros Hrun. split.
  - intros k Hd Hl.
    assert (touches_only (data_fields self ++ label_names self)
              (postprocess torch self)) as Htouch.
    { unfold postprocess. touches; [|apply remove_label_fields_touches].
      apply touches_for_each. intros d Hd'.
      assert (d ∈ (data_fields self ++ label_names self)%list)
        by (apply elem_of_app; by left).
      touches. }
    eapply Htouch; [done|]. by intros [?|?]%elem_of_app.
  - intros r ->. revert Hrun. unfold postprocess. intros Hrun.
    apply bind_inv_ok in Hrun as (? & image & _ & Hrun).
    apply bind_inv_ok in Hrun as (? & shape & _ & Hrun).
    apply bind_inv_ok in Hrun as (? & [rows cols] & _ & Hrun).
    apply bind_inv_ok in Hrun as (? & ? & _ & Hrun).
    by eapply remove_label_fields_returns.
Qed.

Lemma postprocess_frame_witness :
  (∀ k, k ∉ data_fields canonical_boxes → k ∉ label_names canonical_boxes →
        example_data [3] !! k = preprocessed_example !! k)
  ∧ (∀ r, Ok RetData = Ok r → r = RetData).
Proof.
  apply (postprocess_frame (ops:=passthrough_ops) false canonical_boxes
           preprocessed_example (example_data [3]) (Ok RetData)).
  vm_compute. reflexivity.
Defined.

Section PassThrough.

Context `{ops : DataProcessorOps}.
Variable self : DataProcessor.

Hypothesis internal_id : ∀ v, convert_to_internal_type v = Ok v.
Hypothesis original_id : ∀ v, convert_to_original_type v = Ok v.
Hypothesis filter_id : ∀ v rows cols name, filter v rows cols name = Ok v.
Hypothesis check_ok : ∀ v rows cols, check v rows cols = Ok tt.
Hypothesis to_id : ∀ v rows cols, convert_to_albumentations v rows cols = Ok v.
Hypothesis from_id :
  ∀ v rows cols, convert_from_albumentations v rows cols = Ok v.

Lemma check_and_convert_passthrough data rows cols :
  check_and_convert self data rows cols "to" = Ok data
  ∧ check_and_convert self data rows cols "from" = Ok data.
Proof.
  destruct (decide (format (params self) = "albumentations")) as [Hfmt|Hfmt].
  - rewrite !check_and_convert_canonical by done. by rewrite check_ok.
  - by rewrite check_and_convert_to, check_and_convert_from.
Qed.

Lemma preprocess_loop_passthrough rows cols (ds : list string) (σ : dict) :
  (∀ d, d ∈ ds → is_Some (σ !! d)) →
  for_each ds (λ data_name,
    let* d := getitem data_name in
    let* internal := lift (convert_to_internal_type d) in
    let* _ := setitem data_name internal in
    let* d := getitem data_name in
    let* converted := lift (check_and_convert self d rows cols "to") in
    setitem data_name converted) σ = (σ, Ok tt).
Proof.
  intros Hds. apply for_each_skip. intros d Hd.
  destruct (Hds d Hd) as [v Hv].
  rewrite (bind_getitem _ _ _ _ Hv).
  rewrite (bind_lift_ok _ _ _ _ (internal_id v)), bind_setitem.
  rewrite (bind_getitem d v) by apply lookup_insert_eq.
  rewrite (bind_lift_ok _ _ _ _
             (proj1 (check_and_convert_passthrough v rows cols))).
  unfold setitem. by rewrite insert_insert_eq, insert_id.
Qed.

Lemma postprocess_loop_passthrough rows cols (ds : list string) (σ : dict) :
  (∀ d, d ∈ ds → is_Some (σ !! d)) →
  for_each ds (λ data_name,
    let* d := getitem data_name in
    let* _data := lift (filter d rows cols data_name) in
    let* _data := lift (check_and_convert self _data rows cols "from") in
    let* original := lift (convert_to_original_type _data) in
    setitem data_name original) σ = (σ, Ok tt).
Proof.
  intros Hds. apply for_each_skip. intros d Hd.
  destruct (Hds d Hd) as [v Hv].
  rewrite (bind_getitem _ _ _ _ Hv).
  rewrite (bind_lift_ok _ _ _ _ (filter_id v rows cols d)).
  rewrite (bind_lift_ok _ _ _ _
             (proj2 (check_and_convert_passthrough v rows cols))).
  rewrite (bind_lift_ok _ _ _ _ (original_id v)).
  unfold setitem. by rewrite insert_id.
Qed.

End PassThrough.

(** X15. With kind-specific operations that pass rows through, an array
    image, and label columns as long as the rows of every data field:
    [preprocess] completes and leaves the rows with their labels attached
    under every data field, and [postprocess] on the mapping so left (no
    transform in between) gives the caller's mapping back, every row and
    every label at its place. *)
Theorem preprocess_postprocess_round_trip `{ops : DataProcessorOps}
    (torch : bool) (self : DataProcessor)
    (R : string → list (list value)) (ls : list string)
    (cs : list (list value)) (σ : dict) (rows cols : nat) (rest : list nat) :
  (∀ v, convert_to_internal_type v = Ok v) →
  (∀ v, convert_to_original_type v = Ok v) →
  (∀ v rows cols name, filter v rows cols name = Ok v) →
  (∀ v rows cols, check v rows cols = Ok tt) →
  (∀ v rows cols, convert_to_albumentations v rows cols = Ok v) →
  (∀ v rows cols, convert_from_albumentations v rows cols = Ok v) →
  σ !! "image" = Some (VArray (rows :: cols :: rest)) →
  label_fields (params self) = Some ls →
  NoDup (data_fields self) →
  (∀ d, d ∈ data_fields self → d ∉ ls) →
  (∀ d, d ∈ data_fields self → σ !! d = Some (rows_val (R d))) →
  Forall2 (λ l c, σ !! l = Some (VList c)) ls cs →
  (∀ d c, d ∈ data_fields self → c ∈ cs → length c = length (R d)) →
  ∃ σ1,
    preprocess self σ = (σ1, Ok RetNone)
    ∧ (∀ d, d ∈ data_fields self →
         σ1 !! d = Some (rows_val (add_cols (R d) cs)))
    ∧ postprocess torch self σ1 = (σ, Ok RetData).
Proof.
  intros Hint Horig Hfilter Hcheck Hto Hfrom Himg Hls Hnd Hdis Hrows Hcs Hlen.
  set (g1 := λ d, rows_val (add_cols (R d) cs)).
  set (σ1 := set_fields g1 (data_fields self) σ).
  assert ("image" ∉ data_fields self) as Hfresh.
  { intros Hin. specialize (Hrows _ Hin). rewrite Himg in Hrows.
    discriminate. }
  assert (σ1 !! "image" = Some (VArray (rows :: cols :: rest))) as Himg1.
  { unfold σ1. by rewrite lookup_set_fields, decide_False. }
  assert (∀ d, d ∈ data_fields self → σ1 !! d = Some (g1 d)) as Hrows1.
  { intros d Hd. unfold σ1. by rewrite lookup_set_fields, decide_True. }
  exists σ1. split; [|split; [done|]].
  - unfold preprocess, add_label_fields_to_data. rewrite Hls.
    rewrite bind_assoc.
    erewrite bind_ok by (by apply (add_label_fields_outer R ls cs)).
    rewrite bind_ret. fold σ1.
    rewrite (bind_getitem _ _ _ _ Himg1).
    rewrite (bind_lift_ok _ _ _ (rows :: cols :: rest)) by done.
    rewrite (bind_lift_ok _ _ _ (rows, cols)) by done.
    erewrite bind_ok; [reflexivity|].
    apply preprocess_loop_passthrough; try done.
    intros d Hd. rewrite Hrows1 by done. by eexists.
  - unfold postprocess.
    rewrite (bind_getitem _ _ _ _ Himg1).
    rewrite (bind_lift_ok _ _ _ [rows; cols]) by done.
    rewrite (bind_lift_ok _ _ _ (rows, cols)) by done.
    erewrite bind_ok; cycle 1.
    { apply postprocess_loop_passthrough; try done.
      intros d Hd. rewrite Hrows1 by done. by eexists. }
    unfold remove_label_fields_from_data. rewrite Hls.
    erewrite bind_ok; cycle 1.
    { apply (split_after_add R ls cs); [done|done|done| |done].
      apply Forall2_lookup_set_fields; [|done].
      intros l Hl Hin. by apply (Hdis l). }
    unfold ret. f_equal. apply map_eq. intros k. unfold σ1.
    rewrite !lookup_set_fields. case_decide as Hk; [|done].
    symmetry. by apply Hrows.
Qed.

Definition scored_rows : list (list value) :=
  [[VInt 10; VInt 10; VInt 50; VInt 50]; [VInt 0; VInt 0; VInt 20; VInt 30]].

Lemma preprocess_postprocess_round_trip_witness :
  ∃ σ1,
    preprocess (ops:=passthrough_ops) scored_boxes scored_data =
      (σ1, Ok RetNone)
    ∧ (∀ d, d ∈ data_fields scored_boxes →
         σ1 !! d =
           Some (rows_val (add_cols scored_rows
                             [[VInt 3; VInt 5]; [VStr "high"; VStr "low"]])))
    ∧ postprocess (ops:=passthrough_ops) false scored_boxes σ1 =
        (scored_data, Ok RetData).
Proof.
  apply (preprocess_postprocess_round_trip (ops:=passthrough_ops) false
           scored_boxes (λ _, scored_rows) ["class_id"; "score"]
           [[VInt 3; VInt 5]; [VStr "high"; VStr "low"]] scored_data
           100 200 [3]); try reflexivity.
  - apply (bool_decide_unpack _). vm_compute. exact I.
  - intros d Hd. apply (bool_decide_unpack _).
    apply list_elem_of_In in Hd. simpl in Hd.
    destruct Hd as [<-|[]]; vm_compute; exact I.
  - intros d Hd. apply list_elem_of_In in Hd. simpl in Hd.
    destruct Hd as [<-|[]]; reflexivity.
  - repeat constructor.
  - intros d c _ Hc. apply list_elem_of_In in Hc. simpl in Hc.
    destruct Hc as [<-|[<-|[]]]; reflexivity.
Defined.

(** X16. [preprocess] attaches the labels before it looks at the image.
    When the mapping has no ["image"] entry the call raises [KeyError],
    and when the image is an object without a [shape] it raises
    [AttributeError] (not the [RuntimeError] of [get_shape], which
    [preprocess] does not call); in both cases the rows of every data
    field are left with the labels attached. *)
Theorem preprocess_image_errors `{ops : DataProcessorOps}
    (self : DataProcessor) (R : string → list (list value))
    (ls : list string) (cs : list (list value)) (σ : dict) :
  label_fields (params self) = Some ls →
  NoDup (data_fields self) →
  (∀ d, d ∈ data_fields self → d ∉ ls) →
  (∀ d, d ∈ data_fields self → σ !! d = Some (rows_val (R d))) →
  Forall2 (λ l c, σ !! l = Some (VList c)) ls cs →
  (∀ d c, d ∈ data_fields self → c ∈ cs → length c = length (R d)) →
  (σ !! "image" = None →
     preprocess self σ =
       (set_fields (λ d, rows_val (add_cols (R d) cs)) (data_fields self) σ,
        Err (Raise KeyError "'image'")))
  ∧ (∀ ty, σ !! "image" = Some (VObj ty) →
     preprocess self σ =
       (set_fields (λ d, rows_val (add_cols (R d) cs)) (data_fields self) σ,
        Err (Raise AttributeError ""))).
Proof.
  intros Hls Hnd Hdis Hrows Hcs Hlen.
  assert (∀ img, σ !! "image" = img → img ≠ Some (rows_val (R "image")) →
          set_fields (λ d, rows_val (add_cols (R d) cs)) (data_fields self) σ
            !! "image" = img) as Himg1.
  { intros img Himg Hne. rewrite lookup_set_fields, decide_False; [done|].
    intros Hin. specialize (Hrows _ Hin). congruence. }
  split.
  - intros Himg. unfold preprocess, add_label_fields_to_data. rewrite Hls.
    rewrite bind_assoc.
    erewrite bind_ok by (by apply (add_label_fields_outer R ls cs)).
    rewrite bind_ret. apply bind_err. unfold getitem.
    by rewrite (Himg1 None Himg).
  - intros ty Himg. unfold preprocess, add_label_fields_to_data. rewrite Hls.
    rewrite bind_assoc.
    erewrite bind_ok by (by apply (add_label_fields_outer R ls cs)).
    rewrite bind_ret.
    rewrite (bind_getitem "image" (VObj ty)) by (by apply Himg1).
    by apply bind_lift_err.
Qed.

Definition imageless_data : dict :=
  <["bboxes" := VList [example_box]]> (<["class_id" := VList [VInt 3]]> ∅).

Lemma preprocess_image_errors_witness :
  preprocess (ops:=passthrough_ops) canonical_boxes imageless_data =
    (<["bboxes" := VList [VList [VInt 10; VInt 10; VInt 50; VInt 50; VInt 3]]]>
       imageless_data,
     Err (Raise KeyError "'image'")).
Proof.
  apply (proj1 (preprocess_image_errors (ops:=passthrough_ops)
                  canonical_boxes
                  (λ _, [[VInt 10; VInt 10; VInt 50; VInt 50]])
                  ["class_id"] [[VInt 3]] imageless_data
                  eq_refl
                  ltac:(apply (bool_decide_unpack _); vm_compute; exact I)
                  ltac:(intros d Hd; apply (bool_decide_unpack _);
                        apply list_elem_of_In in Hd; simpl in Hd;
                        destruct Hd as [<-|[]]; vm_compute; exact I)
                  ltac:(intros d Hd; apply list_elem_of_In in Hd;
                        simpl in Hd; destruct Hd as [<-|[]]; reflexivity)
                  ltac:(repeat constructor)
                  ltac:(intros d c _ Hc; apply list_elem_of_In in Hc;
                        simpl in Hc; destruct Hc as [<-|[]]; reflexivity))).
  reflexivity.
Defined.

(** X17. For a three-dimensional tensor image of shape [(a, b, c)] the two
    methods do not take the same two numbers for the height and the width:
    [preprocess] hands the first two dimensions, [a] and [b], to
    [check_and_convert], [postprocess] hands the last two, [b] and [c],
    to [filter] and [check_and_convert]. *)
Theorem tensor_image_dimensions `{ops : DataProcessorOps}
    (self : DataProcessor) (d : string) (σ : dict) (a b c : nat)
    (v : value) :
  label_fields (params self) = None →
  data_fields self = [d] →
  σ !! "image" = Some (VTensor [a; b; c]) →
  σ !! d = Some v →
  (∀ v1 v2,
     convert_to_internal_type v = Ok v1 →
     check_and_convert self v1 a b "to" = Ok v2 →
     preprocess self σ = (<[d := v2]> σ, Ok RetNone))
  ∧ (∀ v1 v2 v3,
     filter v b c d = Ok v1 →
     check_and_convert self v1 b c "from" = Ok v2 →
     convert_to_original_type v2 = Ok v3 →
     postprocess true self σ = (<[d := v3]> σ, Ok RetData)).
Proof.
  intros Hls Hds Himg Hd. split.
  - intros v1 v2 Hint Hcc.
    unfold preprocess, add_label_fields_to_data. rewrite Hls, Hds.
    rewrite bind_ret, (bind_getitem _ _ _ _ Himg).
    rewrite (bind_lift_ok _ _ _ [a; b; c]) by done.
    rewrite (bind_lift_ok _ _ _ (a, b)) by done.
    cbn [for_each]. rewrite ?bind_assoc.
    rewrite (bind_getitem _ _ _ _ Hd).
    rewrite ?bind_assoc, (bind_lift_ok _ _ _ _ Hint).
    rewrite ?bind_assoc, bind_setitem.
    rewrite ?bind_assoc, (bind_getitem d v1) by apply lookup_insert_eq.
    rewrite ?bind_assoc, (bind_lift_ok _ _ _ _ Hcc).
    rewrite ?bind_assoc, bind_setitem, !bind_ret.
    unfold ret. by rewrite insert_insert_eq.
  - intros v1 v2 v3 Hfilter Hcc Horig.
    unfold postprocess, remove_label_fields_from_data. rewrite Hls, Hds.
    rewrite (bind_getitem _ _ _ _ Himg).
    rewrite (bind_lift_ok _ _ _ [b; c]) by done.
    rewrite (bind_lift_ok _ _ _ (b, c)) by done.
    cbn [for_each]. rewrite ?bind_assoc.
    rewrite (bind_getitem _ _ _ _ Hd).
    rewrite ?bind_assoc, (bind_lift_ok _ _ _ _ Hfilter).
    rewrite ?bind_assoc, (bind_lift_ok _ _ _ _ Hcc).
    rewrite ?bind_assoc, (bind_lift_ok _ _ _ _ Horig).
    rewrite ?bind_assoc, bind_setitem, !bind_ret.
    reflexivity.
Qed.

(** A processor that stores the height and width it was given in place
    of the rows. *)
Definition size_recording_ops : DataProcessorOps := {|
  default_data_name := "keypoints";
  convert_to_internal_type v := Ok v;
  convert_to_original_type v := Ok v;
  filter _ rows cols _ :=
    Ok (VList [VInt (Z.of_nat rows); VInt (Z.of_nat cols)]);
  check _ _ _ := Ok tt;
  convert_to_albumentations _ rows cols :=
    Ok (VList [VInt (Z.of_nat rows); VInt (Z.of_nat cols)]);
  convert_from_albumentations v _ _ := Ok v
|}.

Definition size_recorder : DataProcessor :=
  init (ops:=size_recording_ops)
    {| format := "xy"; label_fields := None |} None.

Definition tensor_data : dict :=
  <["image" := VTensor [3; 100; 200]]> (<["keypoints" := VList []]> ∅).

Lemma tensor_image_dimensions_witness :
  preprocess (ops:=size_recording_ops) size_recorder tensor_data =
    (<["keypoints" := VList [VInt 3; VInt 100]]> tensor_data, Ok RetNone)
  ∧ postprocess (ops:=size_recording_ops) true size_recorder tensor_data =
      (<["keypoints" := VList [VInt 100; VInt 200]]> tensor_data, Ok RetData).
Proof.
  split.
  - apply (proj1 (tensor_image_dimensions (ops:=size_recording_ops)
                    size_recorder "keypoints" tensor_data 3 100 200
                    (VList []) eq_refl eq_refl eq_refl eq_refl)
             (VList []) (VList [VInt 3; VInt 100])); reflexivity.
  - apply (proj2 (tensor_image_dimensions (ops:=size_recording_ops)
                    size_recorder "keypoints" tensor_data 3 100 200
                    (VList []) eq_refl eq_refl eq_refl eq_refl)
             (VList [VInt 100; VInt 200]) (VList [VInt 100; VInt 200])
             (VList [VInt 100; VInt 200])); reflexivity.
Defined.

(** X18. When [additional_targets] maps the default data name to itself,
    that name is a data field twice, and [add_label_fields_to_data]
    attaches every label column to its rows twice. *)
Theorem aliased_default_labelled_twice `{ops : DataProcessorOps}
    (p : Params) (rowss : list (list value)) (ls : list string)
    (cs : list (list value)) (σ : dict) :
  label_fields p = Some ls →
  default_data_name ∉ ls →
  σ !! default_data_name = Some (rows_val rowss) →
  Forall2 (λ l c, σ !! l = Some (VList c) ∧ length c = length rowss) ls cs →
  let self := init p (Some [(default_data_name, default_data_name)]) in
  data_fields self = [default_data_name; default_data_name]
  ∧ add_label_fields_to_data self σ =
      (<[default_data_name := rows_val (add_cols (add_cols rowss cs) cs)]> σ,
       Ok RetData).
Proof.
  intros Hls Hfresh Hd Hcs self.
  assert (data_fields self = [default_data_name; default_data_name]) as Hds.
  { unfold self, init. cbn [data_fields List.filter snd].
    by rewrite String.eqb_refl. }
  split; [done|].
  unfold add_label_fields_to_data. rewrite Hds. cbn [self init params].
  rewrite Hls. cbn [for_each]. rewrite ?bind_assoc.
  erewrite bind_ok by (by apply (add_label_fields_inner _ ls cs σ rowss)).
  rewrite ?bind_assoc.
  erewrite bind_ok; cycle 1.
  { apply (add_label_fields_inner _ ls cs _ (add_cols rowss cs));
      [apply lookup_insert_eq|done|].
    eapply Forall2_impl; [exact (Forall2_fresh _ _ _ _ Hfresh Hcs)|].
    intros l c (Hne & Hl & Hlen). rewrite lookup_insert_ne by done.
    split; [done|]. rewrite length_add_cols; [done|].
    eapply Forall2_columns_fit, Hcs. }
  rewrite !bind_ret. unfold ret. by rewrite insert_insert_eq.
Qed.

Lemma aliased_default_labelled_twice_witness :
  data_fields
    (init (ops:=passthrough_ops)
       {| format := "coco"; label_fields := Some ["class_id"] |}
       (Some [("bboxes", "bboxes")])) = ["bboxes"; "bboxes"]
  ∧ add_label_fields_to_data
      (init (ops:=passthrough_ops)
         {| format := "coco"; label_fields := Some ["class_id"] |}
         (Some [("bboxes", "bboxes")])) imageless_data =
      (<["bboxes" :=
           VList [VList [VInt 10; VInt 10; VInt 50; VInt 50; VInt 3; VInt 3]]]>
         imageless_data,
       Ok RetData).
Proof.
  apply (aliased_default_labelled_twice (ops:=passthrough_ops)
           {| format := "coco"; label_fields := Some ["class_id"] |}
           [[VInt 10; VInt 10; VInt 50; VInt 50]] ["class_id"] [[VInt 3]]
           imageless_data).
  - reflexivity.
  - apply (bool_decide_unpack _). vm_compute. exact I.
  - reflexivity.
  - repeat constructor.
Defined.

Lemma zip_append_not_iterable (rows labels : list value) :
  length labels = length rows →
  Exists (λ r, py_iter r = Err (Raise TypeError "")) rows →
  zip_append rows labels = Err (Raise TypeError "").
Proof.
  revert labels. induction rows as [|r rows IH]; intros labels Hlen Hex.
  - by apply Exists_nil in Hex.
  - destruct labels as [|v labels]; [done|].
    cbn [zip_append].
    destruct (py_iter r) as [items|e] eqn:Hr.
    + apply Exists_cons in Hex as [Hex|Hex]; [congruence|].
      cbn [rbind]. rewrite IH; [done| |done]. simpl in Hlen. lia.
    + cbn [rbind]. destruct r as [| | | |[|? ?]|[|? ?]|]; simpl in Hr; congruence.
Qed.

(** X19. The rows themselves must be iterable: when a data field holds a
    list as long as the first label column but one of its items is not a
    sequence (a number, [None], ...), [add_label_fields_to_data] raises
    [TypeError] at [list(d)] and leaves the mapping as it was. *)
Theorem add_label_fields_row_not_iterable (self : DataProcessor)
    (d : string) (ds : list string) (l : string) (ls : list string)
    (σ : dict) (rows col : list value) (r : value) :
  data_fields self = d :: ds →
  label_fields (params self) = Some (l :: ls) →
  σ !! d = Some (VList rows) → σ !! l = Some (VList col) →
  length col = length rows →
  r ∈ rows → py_iter r = Err (Raise TypeError "") →
  add_label_fields_to_data self σ = (σ, Err (Raise TypeError "")).
Proof.
  intros Hds Hls Hd Hl Hlen Hr Hiter.
  unfold add_label_fields_to_data. rewrite Hds, Hls.
  cbn [for_each]. do 3 apply bind_err. unfold add_label_field.
  rewrite (bind_getitem _ _ _ _ Hd).
  rewrite (bind_lift_ok _ _ _ (length rows)) by done.
  rewrite (bind_getitem _ _ _ _ Hl).
  rewrite (bind_lift_ok _ _ _ (length col)) by done.
  rewrite Hlen, Nat.eqb_refl. cbn [negb].
  rewrite (bind_getitem _ _ _ _ Hd), (bind_getitem _ _ _ _ Hl).
  rewrite (bind_lift_ok _ _ _ rows) by done.
  rewrite (bind_lift_ok _ _ _ col) by done.
  apply bind_lift_err. apply zip_append_not_iterable; [done|].
  apply Exists_exists. by exists r.
Qed.

Lemma add_label_fields_row_not_iterable_witness :
  add_label_fields_to_data canonical_boxes
    (<["bboxes" := VList [VInt 10; VInt 20]]>
       (<["class_id" := VList [VInt 3; VInt 5]]> ∅)) =
    (<["bboxes" := VList [VInt 10; VInt 20]]>
       (<["class_id" := VList [VInt 3; VInt 5]]> ∅),
     Err (Raise TypeError "")).
Proof.
  apply (add_label_fields_row_not_iterable canonical_boxes
           "bboxes" [] "class_id" []
           (<["bboxes" := VList [VInt 10; VInt 20]]>
              (<["class_id" := VList [VInt 3; VInt 5]]> ∅))
           [VInt 10; VInt 20] [VInt 3; VInt 5] (VInt 10));
    try reflexivity.
  apply list_elem_of_In. simpl. left. reflexivity.
Defined.
